(** * RWS analysis of Doppler wind-profile lidar data: a shallow embedding

    This development embeds [analysis_rws.py] and checks the statements of
    its specification against it.

    Modelling conventions.
    - A cell of the loaded table is a number, as in the record type of the
      specification: the [float64] the reader stored, given by its exact
      value in [Q].  [fl] is the [float64] nearest to a rational, so
      [fl (101 # 10)] is the cell of a line written [10.1].  Comparisons
      between cells are the comparisons of the code.  Differences, means,
      deviations and quantiles are taken exactly; [fl] is applied where a
      statement depends on the rounding: in [round2], and in [near64],
      the angle test with its rounded difference, which is the exact test
      [near] except in a gap of less than [2 ^ -56] below one tenth
      ([near64_near]).  Infinities and missing cells are outside the
      model.  The result of a pandas reduction is an [option]: [None]
      stands for the [NaN] that pandas returns when the reduction is
      undefined (empty sample, or fewer than two values for the sample
      deviation).
    - A [DataFrame] is a Python object: it lives in a heap and is passed
      by reference.  [df[mask]] and [.copy()] allocate new objects,
      [df['AngleComb'] = ...] updates the object in place.  The columns
      of a table read from a file without lines have the dtype [object],
      the columns of any other table hold floats.
    - Console text is kept only where it carries computed values.  A
      figure is kept as the data handed to the plotting library, which is
      taken to draw and save whatever it is given. *)

From stdpp Require Import gmap strings.
From Stdlib Require Import QArith Qabs Qround Qminmax Qpower Qreals Reals Lia
  Lqa List Sorted.
From Stdlib Require PrimFloat FloatOps SpecFloat Uint63.
Import ListNotations.

Local Open Scope Q_scope.

(** ** Numbers *)

Definition Qlt_bool (x y : Q) : bool := negb (Qle_bool y x).

(** Distinct values in order of first occurrence. *)
Fixpoint distinct {A} (eqb : A -> A -> bool) (l : list A) : list A :=
  match l with
  | [] => []
  | x :: r => x :: List.filter (fun y => negb (eqb x y)) (distinct eqb r)
  end.

(** [numpy.rint]: the nearest integer, halves to the even one. *)
Definition rint (x : Q) : Z :=
  let f := Qfloor x in
  match Qcompare (x - inject_Z f) (1 # 2) with
  | Lt => f
  | Gt => (f + 1)%Z
  | Eq => if Z.even f then f else (f + 1)%Z
  end.

(** [2 ^ k], for any integer [k]. *)
Definition pow2 (k : Z) : Q :=
  match k with
  | Z0 => 1
  | Zpos p => inject_Z (2 ^ Zpos p)
  | Zneg p => 1 # (2 ^ p)
  end.

(** The binary exponent of [x <> 0]: [2 ^ e <= |x| < 2 ^ (e + 1)]. *)
Definition exponent (x : Q) : Z :=
  let e := (Z.log2 (Z.abs (Qnum x)) - Z.log2 (Zpos (Qden x)))%Z in
  if Qle_bool (pow2 e) (Qabs x) then e else (e - 1)%Z.

(** The [float64] nearest to [x], ties to the even significand: 53
    significant bits, exponents from -1022 on (below, the spacing stays
    [2 ^ -1074]).  Values beyond the largest [float64] are not met. *)
Definition fl (x : Q) : Q :=
  if Qeq_bool x 0 then 0
  else
    let ulp := pow2 (Z.max (exponent x) (-1022) - 52) in
    Qred (inject_Z (rint (x / ulp)) * ulp).

(** [numpy.round(x, 2)] on a [float64]: the product by 100, [rint], the
    quotient by 100, each a [float64] operation. *)
Definition round2 (x : Q) : Q :=
  fl (inject_Z (rint (fl (x * 100))) / 100).

(** The exact value of a machine [float64] that is finite, and the
    machine [float64] that the quotient of two small naturals gives: they
    serve to compare [fl] with the arithmetic of the machine. *)
Definition exact (f : PrimFloat.float) : option Q :=
  match FloatOps.Prim2SF f with
  | SpecFloat.S754_zero _ => Some 0
  | SpecFloat.S754_finite s m e =>
      Some (Qred (inject_Z (if s then Zneg m else Zpos m) * pow2 e))
  | _ => None
  end.

Definition machine (n d : Z) : PrimFloat.float :=
  PrimFloat.div (PrimFloat.of_uint63 (Uint63.of_Z n))
    (PrimFloat.of_uint63 (Uint63.of_Z d)).

(** ** pandas Series of floats *)

Module Series.

Definition t := list Q.

Definition len (s : t) : nat := List.length s.

Definition sum (s : t) : Q := fold_right Qplus 0 s.

Definition mean (s : t) : option Q :=
  match s with
  | [] => None
  | _ => Some (Qred (sum s / inject_Z (Z.of_nat (len s))))
  end.

(** Sum of squared deviations from [m]. *)
Definition ssd (m : Q) (s : t) : Q :=
  sum (List.map (fun x => (x - m) * (x - m)) s).

(** Sample variance, [ddof = 1]: undefined below two values. *)
Definition var (s : t) : option Q :=
  match s with
  | [] | [_] => None
  | _ =>
      let m := sum s / inject_Z (Z.of_nat (len s)) in
      Some (Qred (ssd m s / inject_Z (Z.of_nat (len s) - 1)))
  end.

Definition std (s : t) : option R :=
  option_map (fun v => sqrt (Q2R v)) (var s).

Definition min (s : t) : option Q :=
  match s with
  | [] => None
  | x :: r => Some (fold_left Qmin r x)
  end.

Definition max (s : t) : option Q :=
  match s with
  | [] => None
  | x :: r => Some (fold_left Qmax r x)
  end.

Definition abs (s : t) : t := List.map Qabs s.

(** [dropna()]: every entry is a number and stays. *)
Definition dropna (s : t) : t := s.

Fixpoint insert_sorted (x : Q) (s : t) : t :=
  match s with
  | [] => [x]
  | y :: r => if Qle_bool x y then x :: s else y :: insert_sorted x r
  end.

(** [sorted(...)] / [sort_values()]: ascending. *)
Definition sorted (s : t) : t := fold_right insert_sorted [] s.

(** [unique()]: distinct values (exact equality), first occurrence kept. *)
Definition unique (s : t) : t := distinct Qeq_bool s.

Definition nunique (s : t) : nat := len (unique s).

Definition median (s : t) : option Q :=
  match sorted s with
  | [] => None
  | (x0 :: _) as o =>
      let n := len o in
      if Nat.even n
      then Some (Qred ((nth (n / 2 - 1) o x0 + nth (n / 2) o x0) / 2))
      else Some (nth (n / 2) o x0)
  end.

(** [quantile(q)] with the default [interpolation='linear'], for
    [0 <= q <= 1] (the only values the program passes). *)
Definition quantile (s : t) (q : Q) : option Q :=
  match sorted s with
  | [] => None
  | (x0 :: _) as o =>
      let pos := q * inject_Z (Z.of_nat (len o) - 1) in
      let lo := Qfloor pos in
      let hi := Qceiling pos in
      let a := nth (Z.to_nat lo) o x0 in
      let b := nth (Z.to_nat hi) o x0 in
      Some (Qred (a + (b - a) * (pos - inject_Z lo)))
  end.

End Series.

(** ** The record table *)

(** One lidar return: a line of the input file. *)
Record LidarRecord := mkRecord {
  Timestamp : Z;
  Azimuth : Q;      (* 'Azimuth(deg)' *)
  Elevation : Q;    (* 'Elevation(deg)' *)
  Distance : Q;     (* 'Distance(m)' *)
  RWS : Q;          (* 'RWS(m/s)' *)
  CNR : Q           (* 'CNR(dB)' *)
}.

(** A table row: the six loaded cells and the derived ['AngleComb'] cell,
    present once [get_data_overview] has run.  The cell is the text
    [str(az.round(2)) + '_' + str(el.round(2))]; the model keeps the two
    rounded numbers. *)
Record Row := mkRow {
  fields :> LidarRecord;
  AngleComb : option (Q * Q)
}.

(** What the numeric columns hold.  [pd.read_csv] finds no value in a
    file without lines and gives its columns the dtype [object]. *)
Inductive dtype := float64 | object.

Record DataFrame := mkFrame {
  columns : list string;
  dtypes : dtype;         (* of the numeric columns *)
  rows : list Row
}.

Definition loaded_columns : list string :=
  ["Timestamp"; "Azimuth(deg)"; "Elevation(deg)"; "Distance(m)";
   "RWS(m/s)"; "CNR(dB)"]%string.

(** The table [pd.read_csv] yields for the given lines. *)
Definition loaded (rs : list LidarRecord) : DataFrame :=
  mkFrame loaded_columns
    match rs with [] => object | _ :: _ => float64 end
    (List.map (fun r => mkRow r None) rs).

Definition len (df : DataFrame) : nat := List.length (rows df).

(** The dtype of the numeric columns: the rows of a table are numbers. *)
Definition dtype_of (df : DataFrame) : dtype :=
  match rows df with
  | [] => dtypes df
  | _ :: _ => float64
  end.

(** [df[col]] for a float column. *)
Definition column (f : LidarRecord -> Q) (df : DataFrame) : Series.t :=
  List.map (fun r : Row => f r) (rows df).

(** [df[mask]]: the rows where the mask holds, in order, all columns. *)
Definition boolean_index (mask : Row -> bool) (df : DataFrame) : DataFrame :=
  mkFrame (columns df) (dtype_of df) (List.filter mask (rows df)).

(** [df['AngleComb'] = values]: replaces the column or appends it. *)
Definition setitem_AngleComb (value : Row -> Q * Q) (df : DataFrame)
  : DataFrame :=
  mkFrame
    (if existsb (String.eqb "AngleComb") (columns df)
     then columns df else columns df ++ ["AngleComb"%string])
    (dtype_of df)
    (List.map (fun r => mkRow (fields r) (Some (value r))) (rows df)).

(** [df.groupby(key)]: one group per distinct key value (exact equality),
    keys ascending, rows of a group in table order. *)
Definition groupby (key : LidarRecord -> Q) (df : DataFrame)
  : list (Q * DataFrame) :=
  List.map
    (fun k => (k, boolean_index (fun r => Qeq_bool (key r) k) df))
    (Series.sorted (Series.unique (column key df))).

(** ** Masks *)

Definition tolerance : Q := 1 # 10.

(** [np.abs(x - target) < 0.1], difference and tolerance taken exactly. *)
Definition near (x target : Q) : bool :=
  Qlt_bool (Qabs (x - target)) tolerance.

(** The same test as [float64] arithmetic carries it out: the difference
    is rounded, and [0.1] is the [float64] nearest to one tenth. *)
Definition near64 (x target : Q) : bool :=
  Qlt_bool (Qabs (fl (x - target))) (fl tolerance).

(** The [float64] just below the [float64] 0.1. *)
Definition below_tolerance : Q := 7205759403792793 # 72057594037927936.

Definition azimuth_mask (azimuth : Q) (r : Row) : bool :=
  near (Azimuth r) azimuth.

Definition elevation_mask (elevation : Q) (r : Row) : bool :=
  near (Elevation r) elevation.

Definition angle_mask (azimuth elevation : Q) (r : Row) : bool :=
  azimuth_mask azimuth r && elevation_mask elevation r.

(** [df['CNR(dB)'] >= cnr_threshold] *)
Definition cnr_mask (cnr_threshold : Q) (r : Row) : bool :=
  Qle_bool cnr_threshold (CNR r).

(** ** What the program prints and draws *)

Inductive warning :=
| NoAngleData (azimuth elevation : Q)
| NoElevationData (elevation : Q)
| NoAzimuthData (azimuth : Q).

(** The values printed by [get_data_overview] before it adds the column. *)
Record Overview := mkOverview {
  ov_rows : nat;
  ov_timestamps : nat;
  ov_azimuth : option Q * option Q * nat;     (* min, max, nunique *)
  ov_elevation : option Q * option Q * nat;
  ov_distance : option Q * option Q * nat;
  ov_rws : option Q * option Q;
  ov_rws_mean : option Q;
  ov_rws_std : option R;
  ov_cnr : option Q * option Q;
  ov_cnr_mean : option Q
}.

(** The dictionary built by [single_angle_statistics]. *)
Record AngleStats := mkAngleStats {
  st_count : nat;
  st_mean : option Q;
  st_median : option Q;
  st_std : option R;
  st_min : option Q;
  st_max : option Q;
  st_p10 : option Q;
  st_p50 : option Q;
  st_p90 : option Q
}.

(** One line of [distance_stats]. *)
Record DistanceStat := mkDistanceStat {
  ds_distance : Q;
  ds_mean : option Q;
  ds_std : option R;
  ds_min : option Q;
  ds_max : option Q;
  ds_count : nat
}.

(** [stats_before] and [stats_after] of [compare_cnr_filtering]. *)
Record CnrStats := mkCnrStats {
  cs_count : nat;
  cs_mean : option Q;
  cs_std : option R;
  cs_min : option Q;
  cs_max : option Q
}.

(** One line of [azimuth_stats]. *)
Record AzimuthStat := mkAzimuthStat {
  az_azimuth : Q;
  az_mean : option Q;
  az_abs_mean : option Q
}.

Record PivotTable := mkPivot {
  pv_index : list Q;
  pv_columns : list Q;
  pv_values : list (list (option Q))
}.

(** The data each figure is drawn from. *)
Inductive figure :=
| rws_distance (azimuth elevation : Q) (distance_stats : list DistanceStat)
| rws_distribution (azimuth elevation : Q) (data : Series.t)
    (quantile_values : list (option Q))
| cnr_filter_comparison (azimuth elevation : Q)
    (data_all data_filtered : Series.t)
| azimuth_comparison (elevation : Q) (data_list : list (Q * Series.t))
| elevation_comparison (azimuth : Q) (data_list : list (Q * Series.t))
    (means : list (option Q)) (stds : list (option R))
| heatmap_azimuth_distance (elevation : Q) (pivot_table : PivotTable)
| heatmap_elevation_distance (azimuth : Q) (pivot_table : PivotTable)
| wind_rose (theta_deg_r : list (Q * option Q)).

Inductive event :=
| Warn (w : warning)
| PrintLoaded (n : nat)
| PrintOverview (o : Overview)
| PrintAngleCombinations (n : nat)
| PrintFilterCounts (cnr_threshold : Q) (before_count after_count : nat)
| PrintRetained (percent : Q)
| PrintAngleStatistics (azimuth elevation : Q) (stats : option AngleStats)
| PrintCnrComparison (azimuth elevation cnr_threshold : Q)
    (stats_before stats_after : CnrStats)
| PrintUniqueAngles (n_azimuths n_elevations : nat)
| SaveFig (f : figure).

(** ** Heap, console and exceptions *)

Definition loc := nat.

Record world := mkWorld {
  heap : gmap loc DataFrame;
  console : list event          (* oldest first *)
}.

Definition start : world := mkWorld ∅ [].

Inductive exn := ZeroDivisionError | TypeError.

Inductive result (A : Type) :=
| Ok (a : A)
| Raise (e : exn).
Arguments Ok {A} a.
Arguments Raise {A} e.

Definition M (A : Type) : Type := world -> result A * world.

Definition ret {A} (a : A) : M A := fun w => (Ok a, w).

Definition bind {A B} (m : M A) (k : A -> M B) : M B :=
  fun w =>
    match m w with
    | (Ok a, w') => k a w'
    | (Raise e, w') => (Raise e, w')
    end.

Definition raise {A} (e : exn) : M A := fun w => (Raise e, w).

Declare Scope py_scope.
Delimit Scope py_scope with py.
Notation "x <- m ;; k" := (bind m (fun x => k))
  (at level 100, m at next level, right associativity) : py_scope.
Notation "m ;; k" := (bind m (fun _ => k))
  (at level 100, right associativity) : py_scope.

Definition empty_frame : DataFrame := mkFrame [] object [].

(** Reading through a reference.  Every reference the program holds is
    live; the default is never reached from [main]. *)
Definition deref (l : loc) : M DataFrame :=
  fun w =>
    (Ok match heap w !! l with Some d => d | None => empty_frame end, w).

(** A new object ([df[mask]], [.copy()]): a location not in use. *)
Definition alloc (d : DataFrame) : M loc :=
  fun w =>
    let l := fresh (dom (heap w)) in
    (Ok l, mkWorld (<[l := d]> (heap w)) (console w)).

(** In-place update of the object at [l]. *)
Definition update (l : loc) (f : DataFrame -> DataFrame) : M unit :=
  fun w => (Ok tt, mkWorld (alter f l (heap w)) (console w)).

Definition emit (e : event) : M unit :=
  fun w => (Ok tt, mkWorld (heap w) (console w ++ [e])).

(** [a / b] on Python integers. *)
Definition truediv (a b : nat) : M Q :=
  match b with
  | O => raise ZeroDivisionError
  | _ => ret (inject_Z (Z.of_nat a) / inject_Z (Z.of_nat b))
  end.

(** ** The analysis functions *)

Local Open Scope py_scope.

(** [load_lidar_data]: the reader is outside the model, the file is
    given by its parsed lines. *)
Definition load_lidar_data (file : list LidarRecord) : M loc :=
  df <- alloc (loaded file) ;;
  emit (PrintLoaded (List.length file)) ;;
  ret df.

Definition min_max (s : Series.t) : option Q * option Q :=
  (Series.min s, Series.max s).

Definition overview_of (d : DataFrame) : Overview :=
  mkOverview
    (len d)
    (List.length (distinct Z.eqb (List.map (fun r : Row => Timestamp r) (rows d))))
    (min_max (column Azimuth d), Series.nunique (column Azimuth d))
    (min_max (column Elevation d), Series.nunique (column Elevation d))
    (min_max (column Distance d), Series.nunique (column Distance d))
    (min_max (column RWS d))
    (Series.mean (column RWS d))
    (Series.std (column RWS d))
    (min_max (column CNR d))
    (Series.mean (column CNR d)).

Definition angle_comb (r : Row) : Q * Q :=
  (round2 (Azimuth r), round2 (Elevation r)).

Definition angle_comb_eqb (a b : option (Q * Q)) : bool :=
  match a, b with
  | Some (a1, a2), Some (b1, b2) => Qeq_bool a1 b1 && Qeq_bool a2 b2
  | None, None => true
  | _, _ => false
  end.

(** [s.round(2)] on the two angle columns: defined on floats, a
    [TypeError] on columns of dtype [object]. *)
Definition round_angles (d : DataFrame) : M (Row -> Q * Q) :=
  match dtype_of d with
  | float64 => ret angle_comb
  | object => raise TypeError
  end.

(** [get_data_overview]: prints the overview, adds ['AngleComb'] to [df]
    itself and returns [df].  The new column is computed before it is
    assigned. *)
Definition get_data_overview (df : loc) : M loc :=
  d <- deref df ;;
  emit (PrintOverview (overview_of d)) ;;
  value <- round_angles d ;;
  update df (setitem_AngleComb value) ;;
  d' <- deref df ;;
  emit (PrintAngleCombinations
          (List.length (distinct angle_comb_eqb (List.map AngleComb (rows d'))))) ;;
  ret df.

(** [apply_cnr_filter]: the retained ratio is printed after the counts
    and before the return. *)
Definition apply_cnr_filter (df : loc) (cnr_threshold : Q) : M loc :=
  d <- deref df ;;
  let before_count := len d in
  df_filtered <- alloc (boolean_index (cnr_mask cnr_threshold) d) ;;
  f <- deref df_filtered ;;
  let after_count := len f in
  emit (PrintFilterCounts cnr_threshold before_count after_count) ;;
  ratio <- truediv after_count before_count ;;
  emit (PrintRetained (ratio * 100)) ;;
  ret df_filtered.

(** The dictionary [stats] of [single_angle_statistics], in the order of
    its keys: count, mean, median, deviation, minimum, maximum, P10, P50,
    P90. *)
Definition angle_stats_of (data : Series.t) : AngleStats :=
  mkAngleStats
    (Series.len data)
    (Series.mean data)
    (Series.median data)
    (Series.std data)
    (Series.min data)
    (Series.max data)
    (Series.quantile data (1 # 10))
    (Series.quantile data (5 # 10))
    (Series.quantile data (9 # 10)).

Definition single_angle_statistics (df : loc) (azimuth elevation : Q)
  : M (option AngleStats) :=
  d <- deref df ;;
  let data := column RWS (boolean_index (angle_mask azimuth elevation) d) in
  if Nat.eqb (Series.len data) 0 then
    emit (Warn (NoAngleData azimuth elevation)) ;;
    ret None
  else
    ret (Some (angle_stats_of data)).

Definition print_angle_statistics (stats : option AngleStats)
    (azimuth elevation : Q) : M unit :=
  emit (PrintAngleStatistics azimuth elevation stats).

Definition distance_stats_of (data : DataFrame) : list DistanceStat :=
  List.map
    (fun kg : Q * DataFrame =>
       let s := column RWS (snd kg) in
       mkDistanceStat (fst kg) (Series.mean s) (Series.std s)
         (Series.min s) (Series.max s) (Series.len s))
    (groupby Distance data).

Definition analyze_rws_by_distance (df : loc) (azimuth elevation : Q)
  : M (option (list DistanceStat)) :=
  d <- deref df ;;
  data <- alloc (boolean_index (angle_mask azimuth elevation) d) ;;
  a <- deref data ;;
  if Nat.eqb (len a) 0 then
    emit (Warn (NoAngleData azimuth elevation)) ;;
    ret None
  else
    let distance_stats := distance_stats_of a in
    emit (SaveFig (rws_distance azimuth elevation distance_stats)) ;;
    ret (Some distance_stats).

(** [np.linspace(0, 1, 101)] *)
Definition percent_grid : list Q :=
  List.map (fun i => inject_Z (Z.of_nat i) / 100) (seq 0 101).

Definition plot_rws_distribution (df : loc) (azimuth elevation : Q)
  : M unit :=
  d <- deref df ;;
  let data :=
    Series.dropna
      (column RWS (boolean_index (angle_mask azimuth elevation) d)) in
  if Nat.eqb (Series.len data) 0 then
    emit (Warn (NoAngleData azimuth elevation))
  else
    emit (SaveFig (rws_distribution azimuth elevation data
                     (List.map (Series.quantile data) percent_grid))).

Definition cnr_stats_of (data : DataFrame) : CnrStats :=
  let s := column RWS data in
  mkCnrStats (len data) (Series.mean s) (Series.std s)
    (Series.min s) (Series.max s).

(** [compare_cnr_filtering]: only [data_all] is checked for rows. *)
Definition compare_cnr_filtering (df : loc)
    (azimuth elevation cnr_threshold : Q) : M unit :=
  d <- deref df ;;
  data_all <- alloc (boolean_index (angle_mask azimuth elevation) d) ;;
  a <- deref data_all ;;
  if Nat.eqb (len a) 0 then
    emit (Warn (NoAngleData azimuth elevation))
  else
    data_filtered <- alloc (boolean_index (cnr_mask cnr_threshold) a) ;;
    f <- deref data_filtered ;;
    let stats_before := cnr_stats_of a in
    let stats_after := cnr_stats_of f in
    emit (PrintCnrComparison azimuth elevation cnr_threshold
            stats_before stats_after) ;;
    ratio <- truediv (len f) (len a) ;;
    emit (PrintRetained (ratio * 100)) ;;
    emit (SaveFig (cnr_filter_comparison azimuth elevation
                     (column RWS a) (column RWS f))).

(** One sample per value of [key] present in [data], values ascending,
    each sample taken with the 0.1 tolerance. *)
Definition samples_near (key : LidarRecord -> Q) (data : DataFrame)
  : list (Q * Series.t) :=
  List.map
    (fun v => (v, column RWS (boolean_index (fun r => near (key r) v) data)))
    (Series.sorted (Series.unique (column key data))).

Definition compare_azimuths (df : loc) (elevation : Q) : M unit :=
  d <- deref df ;;
  data <- alloc (boolean_index (elevation_mask elevation) d) ;;
  a <- deref data ;;
  if Nat.eqb (len a) 0 then
    emit (Warn (NoElevationData elevation))
  else
    emit (SaveFig (azimuth_comparison elevation (samples_near Azimuth a))).

Definition compare_elevations (df : loc) (azimuth : Q) : M unit :=
  d <- deref df ;;
  data <- alloc (boolean_index (azimuth_mask azimuth) d) ;;
  a <- deref data ;;
  if Nat.eqb (len a) 0 then
    emit (Warn (NoAzimuthData azimuth))
  else
    let data_list := samples_near Elevation a in
    emit (SaveFig (elevation_comparison azimuth data_list
                     (List.map (fun vs => Series.mean (snd vs)) data_list)
                     (List.map (fun vs => Series.std (snd vs)) data_list))).

(** [pivot_table(values='RWS(m/s)', index=.., columns=.., aggfunc='mean')] *)
Definition pivot_table (index cols : LidarRecord -> Q) (data : DataFrame)
  : PivotTable :=
  let idx := Series.sorted (Series.unique (column index data)) in
  let cls := Series.sorted (Series.unique (column cols data)) in
  mkPivot idx cls
    (List.map
       (fun i =>
          List.map
            (fun c =>
               Series.mean
                 (column RWS
                    (boolean_index
                       (fun r => Qeq_bool (index r) i && Qeq_bool (cols r) c)
                       data)))
            cls)
       idx).

Definition plot_azimuth_distance_heatmap (df : loc) (elevation : Q)
  : M unit :=
  d <- deref df ;;
  data <- alloc (boolean_index (elevation_mask elevation) d) ;;
  a <- deref data ;;
  if Nat.eqb (len a) 0 then
    emit (Warn (NoElevationData elevation))
  else
    emit (SaveFig (heatmap_azimuth_distance elevation
                     (pivot_table Distance Azimuth a))).

Definition plot_elevation_distance_heatmap (df : loc) (azimuth : Q)
  : M unit :=
  d <- deref df ;;
  data <- alloc (boolean_index (azimuth_mask azimuth) d) ;;
  a <- deref data ;;
  if Nat.eqb (len a) 0 then
    emit (Warn (NoAzimuthData azimuth))
  else
    emit (SaveFig (heatmap_elevation_distance azimuth
                     (pivot_table Distance Elevation a))).

(** [df.groupby('Azimuth(deg)')['RWS(m/s)'].agg(mean, |x|.mean)] *)
Definition azimuth_stats_of (d : DataFrame) : list AzimuthStat :=
  List.map
    (fun kg : Q * DataFrame =>
       let s := column RWS (snd kg) in
       mkAzimuthStat (fst kg) (Series.mean s) (Series.mean (Series.abs s)))
    (groupby Azimuth d).

Definition plot_wind_rose (df : loc) : M unit :=
  d <- deref df ;;
  let azimuth_stats := azimuth_stats_of d in
  emit (SaveFig (wind_rose
                   (List.map (fun s => (az_azimuth s, az_abs_mean s))
                      azimuth_stats))).

(** ** The main program *)

Definition cnr_threshold : Q := - (20).

(** [main], from the loading of the file on; [cnr_threshold] and the
    output directory are its two constants. *)
Definition main (file : list LidarRecord) : M unit :=
  df <- load_lidar_data file ;;
  df <- get_data_overview df ;;
  d <- deref df ;;
  let azimuths := Series.sorted (Series.unique (column Azimuth d)) in
  let elevations := Series.sorted (Series.unique (column Elevation d)) in
  emit (PrintUniqueAngles (List.length azimuths) (List.length elevations)) ;;
  match azimuths, elevations with
  | test_azimuth :: _, test_elevation :: _ =>
      stats <- single_angle_statistics df test_azimuth test_elevation ;;
      print_angle_statistics stats test_azimuth test_elevation ;;
      analyze_rws_by_distance df test_azimuth test_elevation ;;
      plot_rws_distribution df test_azimuth test_elevation ;;
      compare_cnr_filtering df test_azimuth test_elevation cnr_threshold
  | _, _ => ret tt
  end ;;
  match elevations with
  | e :: _ => compare_azimuths df e
  | [] => ret tt
  end ;;
  match azimuths with
  | a :: _ => compare_elevations df a
  | [] => ret tt
  end ;;
  match elevations with
  | e :: _ => plot_azimuth_distance_heatmap df e
  | [] => ret tt
  end ;;
  match azimuths with
  | a :: _ => plot_elevation_distance_heatmap df a
  | [] => ret tt
  end ;;
  plot_wind_rose df.

(** ** Notions used in the statements *)

(** How many entries of [K] equal [x]. *)
Definition occ (x : Q) (K : list Q) : nat :=
  List.length (List.filter (Qeq_bool x) K).

(** [m] leaves every table that is live when it starts as it is. *)
Definition keeps {A} (m : M A) : Prop :=
  forall w l d, heap w !! l = Some d -> heap (snd (m w)) !! l = Some d.

(** [m] always returns. *)
Definition total {A} (m : M A) : Prop :=
  forall w, exists a, fst (m w) = Ok a.


Example rint_half_even : rint (5 # 2) = 2%Z /\ rint (7 # 2) = 4%Z.
Proof. split; reflexivity. Qed.

(** [fl] against the machine: the cells written 0.1, 10.1 and 10.005,
    the difference [10.1 - 10.0] and its comparison with 0.1, the product
    [10.005 * 100], and the two roundings [numpy.round(10.005, 2)] and
    [numpy.round(0.575, 2)], which give 10.01 and 0.57. *)
Example fl_is_float64 :
  exact (machine 1 10) = Some (fl (1 # 10)) /\
  exact (machine 101 10) = Some (fl (101 # 10)) /\
  exact (PrimFloat.sub (machine 101 10) (machine 10 1)) =
    Some (fl (fl (101 # 10) - 10)) /\
  PrimFloat.ltb
    (PrimFloat.abs (PrimFloat.sub (machine 101 10) (machine 10 1)))
    (machine 1 10) = true /\
  exact (PrimFloat.mul (machine 10005 1000) (machine 100 1)) =
    Some (fl (fl (10005 # 1000) * 100)) /\
  exact (PrimFloat.opp (machine 2 3)) = Some (fl (- (2 # 3))) /\
  exact (PrimFloat.add (machine 1 10) (machine 2 10)) =
    Some (fl (fl (1 # 10) + fl (2 # 10))) /\
  exact (PrimFloat.div (machine 1 3) (machine 9007199254740993 1)) =
    Some (fl (fl (1 # 3) / fl 9007199254740993)) /\
  round2 (fl (10005 # 1000)) = fl (1001 # 100) /\
  round2 (fl (575 # 1000)) = fl (57 # 100).
Proof. vm_compute. repeat split. Qed.

(** * Properties *)

(** ** Lists and masks *)

Lemma filter_length_le {A} (p q : A -> bool) (l : list A) :
  (forall x, In x l -> p x = true -> q x = true) ->
  (List.length (List.filter p l) <= List.length (List.filter q l))%nat.
Proof.
  induction l as [|x l IH]; intros H; simpl; [lia|].
  assert (IH' := IH (fun y Hy => H y (or_intror Hy))).
  destruct (p x) eqn:Hp.
  - rewrite (H x (or_introl eq_refl) Hp). simpl. lia.
  - destruct (q x); simpl; lia.
Qed.

Lemma filter_idempotent {A} (p : A -> bool) (l : list A) :
  List.filter p (List.filter p l) = List.filter p l.
Proof.
  induction l as [|x l IH]; simpl; [reflexivity|].
  destruct (p x) eqn:Hp; simpl; [rewrite Hp, IH|]; auto.
Qed.

Lemma filter_sublist {A} (p : A -> bool) (l : list A) :
  sublist (List.filter p l) l.
Proof.
  induction l as [|x l IH]; simpl; [constructor|].
  destruct (p x); now constructor.
Qed.

(** Any order-preserving selection of rows that all pass the mask is
    already inside the filtered list. *)
Lemma filter_greatest {A} (p : A -> bool) (l k : list A) :
  sublist k l -> Forall (fun x => p x = true) k ->
  sublist k (List.filter p l).
Proof.
  intros Hs. induction Hs as [|x k l Hs IH|x k l Hs IH]; intros Hk; simpl.
  - constructor.
  - inversion Hk as [|? ? Hx Hk']; subst. rewrite Hx. constructor. auto.
  - destruct (p x); [constructor|]; auto.
Qed.

Lemma cnr_mask_spec t (r : Row) : cnr_mask t r = true <-> t <= CNR r.
Proof. unfold cnr_mask. apply Qle_bool_iff. Qed.

Lemma near_spec x target :
  near x target = true <-> Qabs (x - target) < tolerance.
Proof.
  unfold near, Qlt_bool. rewrite negb_true_iff.
  split; intros H.
  - apply Qnot_le_lt. intros Hle. apply Qle_bool_iff in Hle. congruence.
  - destruct (Qle_bool tolerance (Qabs (x - target))) eqn:E; [|reflexivity].
    apply Qle_bool_iff in E. exfalso. apply (Qlt_not_le _ _ H E).
Qed.


Lemma boolean_index_rows mask d :
  rows (boolean_index mask d) = List.filter mask (rows d).
Proof. reflexivity. Qed.

Lemma boolean_index_In mask d (r : Row) :
  In r (rows (boolean_index mask d)) <-> In r (rows d) /\ mask r = true.
Proof. simpl. apply filter_In. Qed.

(** A selection and the added column leave the dtype as it is. *)
Lemma dtype_of_boolean_index mask d :
  dtype_of (boolean_index mask d) = dtype_of d.
Proof.
  unfold boolean_index, dtype_of at 1. cbn [rows dtypes].
  destruct (List.filter mask (rows d)) eqn:E; [reflexivity|].
  unfold dtype_of. destruct (rows d); [discriminate|reflexivity].
Qed.

Lemma dtype_of_setitem_AngleComb v d :
  dtype_of (setitem_AngleComb v d) = dtype_of d.
Proof.
  unfold setitem_AngleComb, dtype_of at 1. cbn [rows dtypes].
  unfold dtype_of. destruct (rows d); reflexivity.
Qed.

Lemma dtype_of_rows d : rows d <> [] -> dtype_of d = float64.
Proof. unfold dtype_of. destruct (rows d); [congruence|reflexivity]. Qed.

Lemma dtype_of_loaded file : file <> [] -> dtype_of (loaded file) = float64.
Proof. destruct file; [congruence|reflexivity]. Qed.

Lemma boolean_index_twice m1 m2 d :
  boolean_index m1 (boolean_index m2 d) =
  mkFrame (columns d) (dtype_of d) (List.filter m1 (List.filter m2 (rows d))).
Proof. unfold boolean_index at 1. now rewrite dtype_of_boolean_index. Qed.

Lemma boolean_index_idempotent mask d :
  boolean_index mask (boolean_index mask d) = boolean_index mask d.
Proof.
  rewrite boolean_index_twice. unfold boolean_index.
  now rewrite filter_idempotent.
Qed.

(** ** Running the filter *)

Lemma fresh_not_live (w : world) (l : loc) (d : DataFrame) :
  heap w !! l = Some d -> fresh (dom (heap w)) <> l.
Proof.
  intros H E. apply (is_fresh (dom (heap w))).
  rewrite E. now apply elem_of_dom_2 with d.
Qed.

(** The run of [apply_cnr_filter], step by step: the new table is
    allocated and the two counts are printed before the ratio is taken. *)
Lemma apply_cnr_filter_run w df d t :
  heap w !! df = Some d ->
  let l := fresh (dom (heap w)) in
  let f := boolean_index (cnr_mask t) d in
  let h1 := <[l := f]> (heap w) in
  let c1 := console w ++ [PrintFilterCounts t (len d) (len f)] in
  apply_cnr_filter df t w =
    match len d with
    | O => (Raise ZeroDivisionError, mkWorld h1 c1)
    | S _ =>
        (Ok l,
         mkWorld h1
           (c1 ++ [PrintRetained
                     (inject_Z (Z.of_nat (len f)) / inject_Z (Z.of_nat (len d))
                      * 100)]))
    end.
Proof.
  intros H. cbv zeta.
  unfold apply_cnr_filter, bind, deref, alloc, emit, truediv, ret, raise.
  cbn [heap console]. rewrite H, lookup_insert_eq.
  destruct (len d); reflexivity.
Qed.

(** On a table with at least one row the filter returns a new table with
    exactly the rows whose CNR reaches the threshold: same columns, rows
    in table order and untouched, nothing else kept and nothing else
    dropped. *)
Lemma apply_cnr_filter_returns w df d t :
  heap w !! df = Some d -> rows d <> [] ->
  exists l w' f,
    apply_cnr_filter df t w = (Ok l, w') /\
    heap w' !! l = Some f /\
    columns f = columns d /\
    rows f = List.filter (fun r : Row => Qle_bool t (CNR r)) (rows d) /\
    sublist (rows f) (rows d) /\
    (forall r : Row, In r (rows f) <-> In r (rows d) /\ t <= CNR r) /\
    (forall k, sublist k (rows d) -> Forall (fun r : Row => t <= CNR r) k ->
               sublist k (rows f)).
Proof.
  intros H Hne. rewrite (apply_cnr_filter_run w df d t H).
  destruct (len d) eqn:Hn.
  { destruct (rows d) eqn:E; [congruence|]. unfold len in Hn.
    rewrite E in Hn. discriminate. }
  eexists _, _, (boolean_index (cnr_mask t) d). split; [reflexivity|].
  cbn [heap]. rewrite lookup_insert_eq.
  split; [reflexivity|]. split; [reflexivity|]. split; [reflexivity|].
  split; [apply filter_sublist|]. split.
  - intros r. rewrite boolean_index_In, cnr_mask_spec. reflexivity.
  - intros k Hk Hall. apply filter_greatest; [assumption|].
    eapply Forall_impl; [|exact Hall]. intros r Hr. now apply cnr_mask_spec.
Qed.

(** Filtering a filtered table again keeps every row of it. *)
Lemma apply_cnr_filter_twice_rows d t :
  rows (boolean_index (cnr_mask t) (boolean_index (cnr_mask t) d)) =
  rows (boolean_index (cnr_mask t) d).
Proof. now rewrite boolean_index_idempotent. Qed.

Lemma len_zero_rows d : len d = 0%nat <-> rows d = [].
Proof.
  unfold len. split; intros H; [|now rewrite H].
  now destruct (rows d).
Qed.

Lemma cnr_mask_antitone t1 t2 (r : Row) :
  t1 <= t2 -> cnr_mask t2 r = true -> cnr_mask t1 r = true.
Proof.
  rewrite !cnr_mask_spec. intros H12 H2. now apply Qle_trans with t2.
Qed.

(** ** The quality filter (C1, C5, C6, C10) *)

(** C1 (the code departs from the claim on the empty table): the claim
    asks the filter to return, for every table, exactly the rows whose CNR
    reaches the threshold.  Loading a file without lines and filtering it
    at the default threshold returns nothing: the call raises
    [ZeroDivisionError] after printing the two counts, although the new
    table (no rows, as the claim wants) has already been built. *)
Theorem apply_cnr_filter_empty_file :
  let o := (df <- load_lidar_data [] ;; apply_cnr_filter df cnr_threshold)
             start in
  fst o = Raise ZeroDivisionError /\
  console (snd o) = [PrintLoaded 0; PrintFilterCounts cnr_threshold 0 0] /\
  heap (snd o) !! 1%nat = Some (loaded []).
Proof. vm_compute. repeat split; reflexivity. Qed.

(** C5 (the code departs from the claim): filtering once a table whose
    only row has CNR -25 at threshold -20 returns the table without rows;
    filtering that result again at the same threshold raises
    [ZeroDivisionError], so the second application does not give what the
    first gave. *)
Theorem apply_cnr_filter_twice_differs :
  let r := mkRecord 0 10 5 100 1 (-25) in
  let once := (df <- load_lidar_data [r] ;;
               apply_cnr_filter df cnr_threshold) start in
  let twice := (df <- load_lidar_data [r] ;;
                f <- apply_cnr_filter df cnr_threshold ;;
                apply_cnr_filter f cnr_threshold) start in
  fst once = Ok 1%nat /\
  heap (snd once) !! 1%nat = Some (mkFrame loaded_columns float64 []) /\
  fst twice = Raise ZeroDivisionError.
Proof. vm_compute. repeat split; reflexivity. Qed.

(** C6: raising the threshold never increases the number of retained
    rows.  For thresholds [t1 <= t2] each call on the same table prints
    its number of retained rows ([after_count]), and the number for [t2]
    is at most the number for [t1].  The two calls end the same way: both
    return a table with that many rows, or both raise, which happens only
    on a table without rows, where both numbers are 0. *)
Theorem apply_cnr_filter_monotone w df d t1 t2 :
  heap w !! df = Some d -> t1 <= t2 ->
  exists n1 n2 c1 c2,
    console (snd (apply_cnr_filter df t1 w)) =
      console w ++ PrintFilterCounts t1 (len d) n1 :: c1 /\
    console (snd (apply_cnr_filter df t2 w)) =
      console w ++ PrintFilterCounts t2 (len d) n2 :: c2 /\
    n1 = List.length (List.filter (cnr_mask t1) (rows d)) /\
    n2 = List.length (List.filter (cnr_mask t2) (rows d)) /\
    (n2 <= n1)%nat /\
    match apply_cnr_filter df t1 w, apply_cnr_filter df t2 w with
    | (Ok l1, w1), (Ok l2, w2) =>
        exists f1 f2,
          heap w1 !! l1 = Some f1 /\ heap w2 !! l2 = Some f2 /\
          len f1 = n1 /\ len f2 = n2
    | (Raise _, _), (Raise _, _) => rows d = []
    | _, _ => False
    end.
Proof.
  intros H Ht.
  rewrite (apply_cnr_filter_run w df d t1 H), (apply_cnr_filter_run w df d t2 H).
  exists (len (boolean_index (cnr_mask t1) d)),
         (len (boolean_index (cnr_mask t2) d)).
  assert (Hle : (len (boolean_index (cnr_mask t2) d)
                 <= len (boolean_index (cnr_mask t1) d))%nat).
  { unfold len. simpl. apply filter_length_le.
    intros r _. now apply cnr_mask_antitone. }
  destruct (len d) eqn:Hn; cbn [snd console].
  - exists [], []. repeat (split; [reflexivity || assumption|]).
    now apply len_zero_rows.
  - eexists [_], [_]. rewrite <- !app_assoc.
    repeat (split; [reflexivity || assumption|]).
    exists (boolean_index (cnr_mask t1) d), (boolean_index (cnr_mask t2) d).
    cbn [heap]. rewrite !lookup_insert_eq. repeat split.
Qed.

Lemma apply_cnr_filter_monotone_witness :
  let file := [mkRecord 0 10 5 100 1 (-25); mkRecord 1 10 5 200 2 (-18);
               mkRecord 2 20 5 100 3 (-10)] in
  let d := loaded file in
  let w := snd (load_lidar_data file start) in
  exists n1 n2 c1 c2,
    console (snd (apply_cnr_filter 0%nat (-20) w)) =
      console w ++ PrintFilterCounts (-20) (len d) n1 :: c1 /\
    console (snd (apply_cnr_filter 0%nat (-15) w)) =
      console w ++ PrintFilterCounts (-15) (len d) n2 :: c2 /\
    n1 = List.length (List.filter (cnr_mask (-20)) (rows d)) /\
    n2 = List.length (List.filter (cnr_mask (-15)) (rows d)) /\
    (n2 <= n1)%nat /\
    match apply_cnr_filter 0%nat (-20) w, apply_cnr_filter 0%nat (-15) w with
    | (Ok l1, w1), (Ok l2, w2) =>
        exists f1 f2,
          heap w1 !! l1 = Some f1 /\ heap w2 !! l2 = Some f2 /\
          len f1 = n1 /\ len f2 = n2
    | (Raise _, _), (Raise _, _) => rows d = []
    | _, _ => False
    end.
Proof.
  intros file d w. apply (apply_cnr_filter_monotone w 0%nat d (-20) (-15)).
  - vm_compute. reflexivity.
  - vm_compute. discriminate.
Defined.

(** C10: on a table without rows the filter is not total.  Whatever the
    threshold, the call prints the two counts (both 0), then the ratio
    [after_count / before_count] divides by zero and the call ends with
    [ZeroDivisionError] instead of returning the empty table. *)
Theorem apply_cnr_filter_empty_aborts w df d t :
  heap w !! df = Some d -> rows d = [] ->
  exists w',
    apply_cnr_filter df t w = (Raise ZeroDivisionError, w') /\
    console w' = console w ++ [PrintFilterCounts t 0 0] /\
    truediv 0 (len d) w' = (Raise ZeroDivisionError, w').
Proof.
  intros H Hd. rewrite (apply_cnr_filter_run w df d t H).
  assert (Hn : len d = 0%nat) by now apply len_zero_rows.
  rewrite Hn. eexists. split; [reflexivity|].
  cbn [console]. unfold len. simpl. rewrite Hd. simpl. now split.
Qed.

Lemma apply_cnr_filter_empty_aborts_witness :
  exists w',
    apply_cnr_filter 0%nat (-20) (snd (load_lidar_data [] start)) =
      (Raise ZeroDivisionError, w') /\
    console w' =
      console (snd (load_lidar_data [] start)) ++
      [PrintFilterCounts (-20) 0 0] /\
    truediv 0 (len (loaded [])) w' = (Raise ZeroDivisionError, w').
Proof.
  apply (apply_cnr_filter_empty_aborts _ 0%nat (loaded []) (-20)).
  - vm_compute. reflexivity.
  - reflexivity.
Defined.

(** ** Rounding to [float64] around the tolerance *)

Lemma pow2_Qpower k : pow2 k == 2 ^ k.
Proof.
  destruct k as [|p|p]; [reflexivity| |].
  - exact (Zpower_Qpower 2 (Z.pos p) (Pos2Z.is_nonneg p)).
  - unfold pow2. change (Z.neg p) with (- Z.pos p)%Z.
    rewrite Qpower_opp.
    rewrite <- (Zpower_Qpower 2 (Z.pos p) (Pos2Z.is_nonneg p)).
    rewrite <- Pos2Z.inj_pow. reflexivity.
Qed.

Lemma pow2_inject k : (0 <= k)%Z -> pow2 k == inject_Z (2 ^ k).
Proof.
  intros H. rewrite pow2_Qpower. symmetry. exact (Zpower_Qpower 2 k H).
Qed.

Lemma pow2_pos k : 0 < pow2 k.
Proof. rewrite pow2_Qpower. apply Qpower_0_lt. reflexivity. Qed.

Lemma pow2_add a b : pow2 (a + b) == pow2 a * pow2 b.
Proof. rewrite !pow2_Qpower. apply Qpower_plus. discriminate. Qed.

Lemma pow2_le a b : (a <= b)%Z -> pow2 a <= pow2 b.
Proof.
  intros H. rewrite !pow2_Qpower. apply Qpower_le_compat_l; [assumption|].
  discriminate.
Qed.

Lemma pow2_lt_inv a b : pow2 a < pow2 b -> (a < b)%Z.
Proof.
  rewrite !pow2_Qpower. intros H.
  apply (Qpower_lt_compat_l_inv 2); [assumption|reflexivity].
Qed.

Lemma rint_bound x : Qabs (inject_Z (rint x) - x) <= 1 # 2.
Proof.
  assert (F := Qfloor_le x). assert (F1 := Qlt_floor x).
  rewrite inject_Z_plus in F1. change (inject_Z 1) with 1 in F1.
  apply Qabs_Qle_condition. unfold rint. cbv zeta.
  destruct (Qcompare (x - inject_Z (Qfloor x)) (1 # 2)) eqn:C.
  - apply Qeq_alt in C.
    destruct (Z.even (Qfloor x));
      [|rewrite inject_Z_plus; change (inject_Z 1) with 1]; lra.
  - apply Qlt_alt in C. lra.
  - apply Qgt_alt in C. rewrite inject_Z_plus. change (inject_Z 1) with 1.
    lra.
Qed.

Lemma rint_lower k z : inject_Z k - (1 # 2) < z -> (k <= rint z)%Z.
Proof.
  intros H. assert (B := rint_bound z). apply Qabs_Qle_condition in B.
  assert (L : inject_Z (k - 1) < inject_Z (rint z)).
  { unfold Z.sub. rewrite inject_Z_plus. change (inject_Z (- (1))) with (- (1)).
    lra. }
  rewrite <- Zlt_Qlt in L. lia.
Qed.

Lemma rint_upper k z : z < inject_Z k + (1 # 2) -> (rint z <= k)%Z.
Proof.
  intros H. assert (B := rint_bound z). apply Qabs_Qle_condition in B.
  assert (L : inject_Z (rint z) < inject_Z (k + 1)).
  { rewrite inject_Z_plus. change (inject_Z 1) with 1. lra. }
  rewrite <- Zlt_Qlt in L. lia.
Qed.

Lemma Qabs_num_den x : Qabs x == inject_Z (Z.abs (Qnum x)) / inject_Z (Zpos (Qden x)).
Proof.
  destruct x as [n d]. unfold Qabs. cbn [Qnum Qden].
  rewrite (Qmake_Qdiv (Z.abs n) d). reflexivity.
Qed.

Lemma exponent_spec x :
  ~ x == 0 -> pow2 (exponent x) <= Qabs x /\ Qabs x < pow2 (exponent x + 1).
Proof.
  intros Hx. unfold exponent. cbv zeta.
  set (n := Z.abs (Qnum x)). set (d := Zpos (Qden x)).
  assert (Hn : (0 < n)%Z).
  { unfold n. destruct x as [[|p|p] q]; cbn [Qnum Z.abs]; try lia.
    exfalso. apply Hx. reflexivity. }
  assert (Hd : (0 < d)%Z) by (unfold d; lia).
  destruct (Z.log2_spec n Hn) as [N1 N2].
  destruct (Z.log2_spec d Hd) as [D1 D2].
  assert (An := Z.log2_nonneg n). assert (Ad := Z.log2_nonneg d).
  set (a := Z.log2 n) in *. set (b := Z.log2 d) in *.
  assert (E : Qabs x == inject_Z n / inject_Z d) by apply Qabs_num_den.
  assert (Qd : 0 < inject_Z d)
    by (change 0 with (inject_Z 0); rewrite <- Zlt_Qlt; lia).
  assert (Pa : pow2 a == inject_Z (2 ^ a)).
  { apply pow2_inject. lia. }
  assert (Pa1 : pow2 (a + 1) == inject_Z (2 ^ (a + 1))).
  { apply pow2_inject. lia. }
  assert (Pb : pow2 b == inject_Z (2 ^ b)).
  { apply pow2_inject. lia. }
  assert (Pb1 : pow2 (b + 1) == inject_Z (2 ^ (b + 1))).
  { apply pow2_inject. lia. }
  assert (Qn1 : pow2 a <= inject_Z n) by (rewrite Pa, <- Zle_Qle; lia).
  assert (Qn2 : inject_Z n < pow2 (a + 1)) by (rewrite Pa1, <- Zlt_Qlt; lia).
  assert (Qd1 : pow2 b <= inject_Z d) by (rewrite Pb, <- Zle_Qle; lia).
  assert (Qd2 : inject_Z d < pow2 (b + 1)) by (rewrite Pb1, <- Zlt_Qlt; lia).
  destruct (Qle_bool (pow2 (a - b)) (Qabs x)) eqn:T.
  - apply Qle_bool_iff in T. split; [exact T|].
    rewrite E. apply Qlt_shift_div_r; [assumption|].
    assert (S : pow2 (a - b + 1) * pow2 b == pow2 (a + 1)).
    { rewrite <- pow2_add. replace (a - b + 1 + b)%Z with (a + 1)%Z by lia.
      reflexivity. }
    assert (P := pow2_pos (a - b + 1)).
    apply Qlt_le_trans with (pow2 (a + 1)); [assumption|].
    rewrite <- S. apply Qmult_le_l; assumption.
  - assert (T' : Qabs x < pow2 (a - b)).
    { apply Qnot_le_lt. intros H. apply Qle_bool_iff in H. congruence. }
    replace (a - b - 1 + 1)%Z with (a - b)%Z by lia. split; [|exact T'].
    rewrite E. apply Qle_shift_div_l; [assumption|].
    assert (S : pow2 (a - b - 1) * pow2 (b + 1) == pow2 a).
    { rewrite <- pow2_add. replace (a - b - 1 + (b + 1))%Z with a by lia.
      reflexivity. }
    assert (P := pow2_pos (a - b - 1)).
    apply Qle_trans with (pow2 a); [|assumption].
    rewrite <- S. apply Qmult_le_l; [assumption|]. apply Qlt_le_weak. assumption.
Qed.

Lemma fl_unfold y :
  ~ y == 0 ->
  let u := pow2 (Z.max (exponent y) (-1022) - 52) in
  fl y == inject_Z (rint (y / u)) * u.
Proof.
  intros Hy. cbv zeta. unfold fl.
  destruct (Qeq_bool y 0) eqn:E.
  - apply Qeq_bool_iff in E. contradiction.
  - apply Qred_correct.
Qed.

Lemma fl_zero y : y == 0 -> fl y = 0.
Proof.
  intros E. unfold fl. apply Qeq_bool_iff in E. now rewrite E.
Qed.

(** Rounding to the grid of spacing [u] does not cross a grid point. *)
Lemma grid_lower k u y :
  0 < u -> (inject_Z k - (1 # 2)) * u < y ->
  inject_Z k * u <= inject_Z (rint (y / u)) * u.
Proof.
  intros Hu H. apply Qmult_le_compat_r; [|lra].
  rewrite <- Zle_Qle. apply rint_lower.
  apply Qlt_shift_div_l; assumption.
Qed.

Lemma grid_upper k u y :
  0 < u -> y < (inject_Z k + (1 # 2)) * u ->
  inject_Z (rint (y / u)) * u <= inject_Z k * u.
Proof.
  intros Hu H. apply Qmult_le_compat_r; [|lra].
  rewrite <- Zle_Qle. apply rint_upper.
  apply Qlt_shift_div_r; assumption.
Qed.

Lemma fl_tolerance : fl tolerance == 7205759403792794 # 72057594037927936.
Proof. vm_compute. reflexivity. Qed.

Lemma exponent_ge y k :
  ~ y == 0 -> pow2 k <= Qabs y -> (k <= exponent y)%Z.
Proof.
  intros Hy H. destruct (exponent_spec y Hy) as [_ U].
  assert (L : pow2 k < pow2 (exponent y + 1))
    by (eapply Qle_lt_trans; eassumption).
  apply pow2_lt_inv in L. lia.
Qed.

Lemma exponent_lt y k :
  ~ y == 0 -> Qabs y < pow2 k -> (exponent y < k)%Z.
Proof.
  intros Hy H. destruct (exponent_spec y Hy) as [L _].
  apply pow2_lt_inv. eapply Qle_lt_trans; eassumption.
Qed.

Lemma Qabs_ge_pos x b : b <= x -> b <= Qabs x.
Proof. intros H. eapply Qle_trans; [exact H|apply Qle_Qabs]. Qed.

Lemma Qabs_ge_neg x b : x <= - b -> b <= Qabs x.
Proof.
  intros H. rewrite <- Qabs_opp.
  eapply Qle_trans; [|apply Qle_Qabs]. lra.
Qed.

(** A value at least one tenth away from zero rounds to a [float64] at
    least as large as the [float64] 0.1. *)
Lemma fl_above_tolerance y :
  tolerance <= Qabs y -> fl tolerance <= Qabs (fl y).
Proof.
  intros H. unfold tolerance in H.
  assert (Hy : ~ y == 0).
  { intros E. rewrite E in H. exact (H eq_refl). }
  assert (He : (-4 <= exponent y)%Z).
  { apply exponent_ge; [assumption|].
    apply Qle_trans with (1 # 10); [discriminate|assumption]. }
  destruct (exponent_spec y Hy) as [L U].
  rewrite (fl_unfold y Hy), fl_tolerance.
  rewrite Z.max_l by lia.
  set (e := exponent y) in *.
  set (u := pow2 (e - 52)).
  assert (Hu : 0 < u) by apply pow2_pos.
  destruct (Z.eq_dec e (-4)) as [E4|N4].
  - assert (Eu : u == 1 # 72057594037927936)
      by (unfold u; rewrite E4; reflexivity).
    destruct (Qlt_le_dec y 0) as [Neg|Pos].
    + rewrite Qabs_neg in H by lra.
      apply Qabs_ge_neg.
      eapply Qle_trans;
        [apply (grid_upper (-7205759403792794) u y Hu)|].
      * change (inject_Z (-7205759403792794)) with (-7205759403792794 # 1).
        rewrite Eu. lra.
      * change (inject_Z (-7205759403792794)) with (-7205759403792794 # 1).
        rewrite Eu. lra.
    + rewrite Qabs_pos in H by assumption.
      apply Qabs_ge_pos.
      eapply Qle_trans;
        [|apply (grid_lower 7205759403792794 u y Hu)].
      * change (inject_Z 7205759403792794) with (7205759403792794 # 1).
        rewrite Eu. lra.
      * change (inject_Z 7205759403792794) with (7205759403792794 # 1).
        rewrite Eu. lra.
  - assert (Ee : pow2 e == inject_Z (2 ^ 52) * u).
    { unfold u. rewrite <- (pow2_inject 52) by lia. rewrite <- pow2_add.
      replace (52 + (e - 52))%Z with e by lia. reflexivity. }
    assert (E3 : (1 # 8) <= pow2 e) by (apply (pow2_le (-3) e); lia).
    set (K := inject_Z (2 ^ 52)) in *.
    assert (HK : 0 <= K) by discriminate.
    destruct (Qlt_le_dec y 0) as [Neg|Pos].
    + rewrite Qabs_neg in L by lra.
      apply Qabs_ge_neg.
      apply Qle_trans with (inject_Z (- 2 ^ 52) * u).
      * apply grid_upper; [assumption|].
        change (inject_Z (- 2 ^ 52)) with (- K). nra.
      * change (inject_Z (- 2 ^ 52)) with (- K). lra.
    + rewrite Qabs_pos in L by assumption.
      apply Qabs_ge_pos.
      apply Qle_trans with (inject_Z (2 ^ 52) * u).
      * fold K. lra.
      * apply grid_lower; [assumption|]. fold K. nra.
Qed.

(** A value at most the [float64] just below 0.1 away from zero rounds
    to a [float64] that is no further. *)
Lemma fl_below_tolerance y :
  Qabs y <= below_tolerance -> Qabs (fl y) <= below_tolerance.
Proof.
  intros H. unfold below_tolerance in *.
  destruct (Qeq_dec y 0) as [E0|Hy].
  { rewrite (fl_zero y E0). discriminate. }
  destruct (exponent_spec y Hy) as [L U].
  assert (He : (exponent y < -3)%Z).
  { apply exponent_lt; [assumption|].
    eapply Qle_lt_trans; [exact H|reflexivity]. }
  rewrite (fl_unfold y Hy).
  set (e := exponent y) in *.
  set (E := Z.max e (-1022)).
  assert (HE : (E <= -4)%Z) by (unfold E; lia).
  set (u := pow2 (E - 52)).
  assert (Hu : 0 < u) by apply pow2_pos.
  apply Qabs_Qle_condition in H. apply Qabs_Qle_condition.
  destruct (Z.eq_dec E (-4)) as [E4|N4].
  - assert (Eu : u == 1 # 72057594037927936)
      by (unfold u; rewrite E4; reflexivity).
    split.
    + eapply Qle_trans;
        [|apply (grid_lower (-7205759403792793) u y Hu)].
      * change (inject_Z (-7205759403792793)) with (-7205759403792793 # 1).
        rewrite Eu. lra.
      * change (inject_Z (-7205759403792793)) with (-7205759403792793 # 1).
        rewrite Eu. lra.
    + eapply Qle_trans;
        [apply (grid_upper 7205759403792793 u y Hu)|].
      * change (inject_Z 7205759403792793) with (7205759403792793 # 1).
        rewrite Eu. lra.
      * change (inject_Z 7205759403792793) with (7205759403792793 # 1).
        rewrite Eu. lra.
  - assert (Ee : pow2 (E + 1) == inject_Z (2 ^ 53) * u).
    { unfold u. rewrite <- (pow2_inject 53) by lia. rewrite <- pow2_add.
      replace (53 + (E - 52))%Z with (E + 1)%Z by lia. reflexivity. }
    assert (E3 : pow2 (E + 1) <= 1 # 16) by (apply (pow2_le (E + 1) (-4)); lia).
    assert (U' : Qabs y < pow2 (E + 1)).
    { eapply Qlt_le_trans; [exact U|]. apply pow2_le. unfold E. lia. }
    apply Qabs_Qlt_condition in U'.
    set (K := inject_Z (2 ^ 53)) in *.
    assert (HK : 0 <= K) by discriminate.
    split.
    + apply Qle_trans with (inject_Z (- 2 ^ 53) * u).
      * change (inject_Z (- 2 ^ 53)) with (- K). lra.
      * apply grid_lower; [assumption|].
        change (inject_Z (- 2 ^ 53)) with (- K). nra.
    + apply Qle_trans with (inject_Z (2 ^ 53) * u).
      * apply grid_upper; [assumption|]. fold K. nra.
      * fold K. lra.
Qed.

(** ** Angle selection (C2) *)

Lemma near_self x : near x x = true.
Proof.
  apply near_spec. assert (E : x - x == 0) by ring. rewrite E. reflexivity.
Qed.

Lemma near_false x target :
  near x target = false <-> tolerance <= Qabs (x - target).
Proof.
  unfold near, Qlt_bool. rewrite negb_false_iff. apply Qle_bool_iff.
Qed.

Lemma near64_self x : near64 x x = true.
Proof.
  unfold near64, fl at 1.
  assert (E : Qeq_bool (x - x) 0 = true) by (apply Qeq_bool_iff; ring).
  now rewrite E.
Qed.

(** The test of the code against exact distances: at a distance of one
    tenth or more the row is turned down, at a distance up to the
    [float64] just below 0.1 it passes. *)
Lemma near64_excludes x target :
  tolerance <= Qabs (x - target) -> near64 x target = false.
Proof.
  intros H. unfold near64, Qlt_bool. rewrite negb_false_iff.
  apply Qle_bool_iff. now apply fl_above_tolerance.
Qed.

Lemma near64_selects x target :
  Qabs (x - target) <= below_tolerance -> near64 x target = true.
Proof.
  intros H. apply fl_below_tolerance in H.
  unfold near64, Qlt_bool. rewrite negb_true_iff.
  destruct (Qle_bool (fl tolerance) (Qabs (fl (x - target)))) eqn:E;
    [|reflexivity].
  apply Qle_bool_iff in E. rewrite fl_tolerance in E.
  unfold below_tolerance in H. exfalso. lra.
Qed.

(** The exact test and the test of the code agree outside the gap
    between the [float64] just below 0.1 and one tenth. *)
Lemma near64_near x target :
  (near64 x target = true -> near x target = true) /\
  (Qabs (x - target) <= below_tolerance \/ tolerance <= Qabs (x - target) ->
   near64 x target = near x target).
Proof.
  split.
  - intros H. destruct (near x target) eqn:E; [reflexivity|].
    apply near_false in E. apply near64_excludes in E. congruence.
  - intros [H|H].
    + rewrite (near64_selects _ _ H). symmetry. apply near_spec.
      unfold below_tolerance, tolerance in *. lra.
    + rewrite (near64_excludes _ _ H). symmetry. now apply near_false.
Qed.

(** Stored angles whose difference is a whole multiple of [2 ^ -56] (any
    two [float64] that are 0 or at least 1/16 in size) never fall into
    the gap: on them the exact test is the test of the code. *)
Lemma near64_near_grid x target k :
  x - target == inject_Z k * (1 # 72057594037927936) ->
  near64 x target = near x target.
Proof.
  intros E. apply near64_near. rewrite E. unfold below_tolerance, tolerance.
  destruct (Z_le_gt_dec (Z.abs k) 7205759403792793) as [Hk|Hk].
  - left. apply Qabs_Qle_condition.
    assert (A : inject_Z (-7205759403792793) <= inject_Z k)
      by (rewrite <- Zle_Qle; lia).
    assert (B : inject_Z k <= inject_Z 7205759403792793)
      by (rewrite <- Zle_Qle; lia).
    change (inject_Z (-7205759403792793)) with (-7205759403792793 # 1) in A.
    change (inject_Z 7205759403792793) with (7205759403792793 # 1) in B.
    lra.
  - right. destruct (Z_le_gt_dec 0 k) as [Hp|Hn].
    + apply Qabs_ge_pos.
      assert (A : inject_Z 7205759403792794 <= inject_Z k)
        by (rewrite <- Zle_Qle; lia).
      change (inject_Z 7205759403792794) with (7205759403792794 # 1) in A.
      lra.
    + apply Qabs_ge_neg.
      assert (A : inject_Z k <= inject_Z (-7205759403792794))
        by (rewrite <- Zle_Qle; lia).
      change (inject_Z (-7205759403792794)) with (-7205759403792794 # 1) in A.
      lra.
Qed.

(** C2 (counterexample): a line written with azimuth 10.1 is offset by
    exactly 0.1 from the target 10.0, and it is selected.  The cell holds
    the [float64] nearest to 10.1, which lies less than 0.1 above 10; the
    rounded difference the code computes is below the [float64] 0.1 as
    well, and so says the machine for [abs (10.1 - 10.0) < 0.1].
    [single_angle_statistics] for azimuth 10 and elevation 5 returns the
    statistics of this line. *)
Lemma angle_selection_written_offset_selected :
  let line := mkRecord 0 (fl (101 # 10)) 5 100 1 (-10) in
  let r := mkRow line None in
  Azimuth r = 5685794529555251 # 562949953421312 /\
  Some (Azimuth r) = exact (machine 101 10) /\
  Qabs (Azimuth r - 10) < 1 # 10 /\
  fl (Azimuth r - 10) = 56294995342131 # 562949953421312 /\
  fl (1 # 10) = 3602879701896397 # 36028797018963968 /\
  near64 (Azimuth r) 10 = true /\
  PrimFloat.ltb
    (PrimFloat.abs (PrimFloat.sub (machine 101 10) (machine 10 1)))
    (machine 1 10) = true /\
  azimuth_mask 10 r = true /\
  angle_mask 10 5 r = true /\
  In r (rows (boolean_index (angle_mask 10 5) (loaded [line]))) /\
  fst ((df <- load_lidar_data [line] ;; single_angle_statistics df 10 5)
         start) = Ok (Some (angle_stats_of [1])).
Proof.
  cbv zeta.
  repeat (split; [vm_compute; reflexivity|]).
  split; [left; vm_compute; reflexivity|].
  vm_compute. reflexivity.
Qed.

(** C2 (as amended): the selection test is the strict [|x - target| < 0.1]
    on each angle, on the values the table stores.  A row whose azimuth
    (elevation) is the target itself passes; a row whose stored azimuth
    (elevation) lies 0.1 or more from the target is turned down; a row
    whose stored value lies within the [float64] just below 0.1 of the
    target passes; and with both targets given a row of the table is
    selected exactly when both tests pass.  The same holds of the test
    with the rounded difference of the code ([near64]), which passes
    nothing the exact test turns down and is the exact test whenever the
    difference is a whole multiple of [2 ^ -56].  A line written with an
    offset of 0.1 is stored as the nearest [float64]: written 10.1 it
    passes for the target 10, written 0.1 it is turned down for the
    target 0. *)
Theorem angle_selection_strict_on_stored_values
    (ts : Z) (az el dist rws cnr : Q) (ac : option (Q * Q))
    (azimuth elevation : Q) (d : DataFrame) (r : Row) :
  let row a e := mkRow (mkRecord ts a e dist rws cnr) ac in
  azimuth_mask azimuth (row azimuth el) = true /\
  elevation_mask elevation (row az elevation) = true /\
  (1 # 10 <= Qabs (az - azimuth) ->
   azimuth_mask azimuth (row az el) = false) /\
  (1 # 10 <= Qabs (el - elevation) ->
   elevation_mask elevation (row az el) = false) /\
  (Qabs (az - azimuth) <= below_tolerance ->
   azimuth_mask azimuth (row az el) = true) /\
  (Qabs (el - elevation) <= below_tolerance ->
   elevation_mask elevation (row az el) = true) /\
  angle_mask azimuth elevation (row azimuth elevation) = true /\
  angle_mask azimuth elevation r =
    azimuth_mask azimuth r && elevation_mask elevation r /\
  (In r (rows (boolean_index (angle_mask azimuth elevation) d)) <->
   In r (rows d) /\
   azimuth_mask azimuth r = true /\ elevation_mask elevation r = true) /\
  near64 azimuth azimuth = true /\
  (1 # 10 <= Qabs (az - azimuth) -> near64 az azimuth = false) /\
  (Qabs (az - azimuth) <= below_tolerance -> near64 az azimuth = true) /\
  (near64 az azimuth = true -> azimuth_mask azimuth (row az el) = true) /\
  (forall k : Z,
     az - azimuth == inject_Z k * (1 # 72057594037927936) ->
     near64 az azimuth = azimuth_mask azimuth (row az el)) /\
  azimuth_mask 10 (row (fl (101 # 10)) el) = true /\
  azimuth_mask 0 (row (fl (1 # 10)) el) = false /\
  elevation_mask 5 (row az (fl (49 # 10))) = true /\
  elevation_mask (fl (1 # 10)) (row az (fl (2 # 10))) = false /\
  near64 (fl (101 # 10)) 10 = true /\
  near64 (fl (1 # 10)) 0 = false /\
  near64 (fl (49 # 10)) 5 = true /\
  near64 (fl (2 # 10)) (fl (1 # 10)) = false.
Proof.
  cbv zeta. unfold angle_mask, azimuth_mask, elevation_mask.
  cbn [fields Azimuth Elevation].
  rewrite !near_self, near64_self. change (1 # 10) with tolerance.
  assert (Hin : forall x t, Qabs (x - t) <= below_tolerance -> near x t = true).
  { intros x t H. apply near_spec. unfold below_tolerance, tolerance in *.
    lra. }
  split; [reflexivity|]. split; [reflexivity|].
  split; [apply near_false|]. split; [apply near_false|].
  split; [apply Hin|]. split; [apply Hin|].
  split; [reflexivity|]. split; [reflexivity|].
  split.
  { rewrite boolean_index_In. unfold angle_mask, azimuth_mask, elevation_mask.
    rewrite andb_true_iff. reflexivity. }
  split; [reflexivity|].
  split; [apply near64_excludes|].
  split; [apply near64_selects|].
  split; [apply near64_near|].
  split; [intros k; apply near64_near_grid|].
  repeat split; vm_compute; reflexivity.
Qed.

(** ** The aggregator on a sample (C4) *)

(** [single_angle_statistics] looks at the selection before aggregating:
    an empty selection gives the warning and [None], never statistics. *)
Lemma single_angle_statistics_run w df d az el :
  heap w !! df = Some d ->
  single_angle_statistics df az el w =
    match column RWS (boolean_index (angle_mask az el) d) with
    | [] =>
        (Ok None, mkWorld (heap w) (console w ++ [Warn (NoAngleData az el)]))
    | data => (Ok (Some (angle_stats_of data)), w)
    end.
Proof.
  intros H. unfold single_angle_statistics, bind, deref. rewrite H.
  destruct (column RWS (boolean_index (angle_mask az el) d)); reflexivity.
Qed.

(** C4: on the sample 1, 2, 3, 4, 5 the statistics are mean 3, median 3,
    10 % quantile 1.4 (linear interpolation at position 0.1 * 4 between
    the first and the second order statistic) and sample standard
    deviation the square root of 2.5 (sum of squares 10 over n - 1 = 4);
    they are what [single_angle_statistics] returns for a table whose
    selected rows carry these five speeds. *)
Theorem angle_stats_one_to_five :
  let st := angle_stats_of [1; 2; 3; 4; 5] in
  let file := List.map (fun v => mkRecord 0 10 5 100 v (-10)) [1; 2; 3; 4; 5] in
  st_count st = 5%nat /\
  st_mean st = Some 3 /\
  st_median st = Some 3 /\
  st_p10 st = Some (7 # 5) /\
  st_p50 st = Some 3 /\
  Series.ssd 3 [1; 2; 3; 4; 5] == 10 /\
  Series.var [1; 2; 3; 4; 5] = Some (5 # 2) /\
  st_std st = Some (sqrt (5 / 2))%R /\
  fst ((df <- load_lidar_data file ;; single_angle_statistics df 10 5) start)
    = Ok (Some st).
Proof.
  cbv zeta. unfold angle_stats_of.
  cbn [st_count st_mean st_median st_p10 st_p50 st_std].
  repeat (split; [vm_compute; reflexivity|]).
  vm_compute. reflexivity.
Qed.

(** ** Grouping by exact value *)

Lemma Qeq_bool_sym x y : Qeq_bool x y = Qeq_bool y x.
Proof.
  destruct (Qeq_bool x y) eqn:E, (Qeq_bool y x) eqn:F; try reflexivity.
  - apply Qeq_bool_iff in E. symmetry in E. apply Qeq_bool_iff in E. congruence.
  - apply Qeq_bool_iff in F. symmetry in F. apply Qeq_bool_iff in F. congruence.
Qed.

Lemma Qeq_bool_trans x y z :
  Qeq_bool x y = true -> Qeq_bool y z = true -> Qeq_bool x z = true.
Proof.
  rewrite !Qeq_bool_iff. intros H1 H2. now rewrite H1.
Qed.

Lemma filter_filter_absorb {A} (p q : A -> bool) (l : list A) :
  (forall z, p z = true -> q z = true) ->
  List.filter p (List.filter q l) = List.filter p l.
Proof.
  intros H. induction l as [|z l IH]; simpl; [reflexivity|].
  destruct (q z) eqn:Hq; simpl.
  - now rewrite IH.
  - destruct (p z) eqn:Hp; [|assumption].
    apply H in Hp. congruence.
Qed.

Lemma filter_filter_disjoint {A} (p q : A -> bool) (l : list A) :
  (forall z, p z = true -> q z = false) ->
  List.filter p (List.filter q l) = [].
Proof.
  intros H. induction l as [|z l IH]; simpl; [reflexivity|].
  destruct (q z) eqn:Hq; simpl; [|assumption].
  destruct (p z) eqn:Hp; [|assumption].
  apply H in Hp. congruence.
Qed.

Lemma occ_cons x y K :
  occ x (y :: K) = ((if Qeq_bool x y then 1 else 0) + occ x K)%nat.
Proof. unfold occ. simpl. now destruct (Qeq_bool x y). Qed.

Lemma occ_insert_sorted x y K :
  occ x (Series.insert_sorted y K) = occ x (y :: K).
Proof.
  induction K as [|z K IH]; [reflexivity|].
  cbn [Series.insert_sorted].
  destruct (Qle_bool y z); [reflexivity|].
  rewrite !occ_cons, IH, occ_cons. lia.
Qed.

Lemma occ_sorted x l : occ x (Series.sorted l) = occ x l.
Proof.
  induction l as [|y l IH]; [reflexivity|].
  change (Series.sorted (y :: l))
    with (Series.insert_sorted y (Series.sorted l)).
  now rewrite occ_insert_sorted, !occ_cons, IH.
Qed.

Lemma occ_unique x l :
  occ x (Series.unique l) = if existsb (Qeq_bool x) l then 1%nat else 0%nat.
Proof.
  unfold Series.unique.
  induction l as [|y l IH]; [reflexivity|].
  cbn [distinct existsb]. rewrite occ_cons. unfold occ in *.
  destruct (Qeq_bool x y) eqn:E; cbn [orb].
  - rewrite filter_filter_disjoint; [reflexivity|].
    intros z Hz. apply negb_false_iff.
    apply Qeq_bool_trans with x; [now rewrite Qeq_bool_sym|assumption].
  - rewrite filter_filter_absorb; [assumption|].
    intros z Hz. apply negb_true_iff.
    destruct (Qeq_bool y z) eqn:F; [|reflexivity].
    rewrite <- E. symmetry. apply Qeq_bool_trans with z; [assumption|].
    now rewrite Qeq_bool_sym.
Qed.

Lemma occ_positive x K :
  (0 < occ x K)%nat <-> exists k, In k K /\ x == k.
Proof.
  unfold occ. split.
  - intros H. destruct (List.filter (Qeq_bool x) K) as [|k F] eqn:E;
      [simpl in H; lia|].
    assert (Hk : In k (List.filter (Qeq_bool x) K)) by (rewrite E; now left).
    apply filter_In in Hk. exists k. now rewrite <- Qeq_bool_iff.
  - intros (k & Hk & Hx).
    assert (Hf : In k (List.filter (Qeq_bool x) K)).
    { apply filter_In. split; [assumption|]. now apply Qeq_bool_iff. }
    destruct (List.filter (Qeq_bool x) K); [contradiction|simpl; lia].
Qed.

Lemma existsb_Qeq x l :
  existsb (Qeq_bool x) l = true <-> exists y, In y l /\ x == y.
Proof.
  rewrite existsb_exists. split; intros (y & Hy & E); exists y;
    (split; [assumption|]); now apply Qeq_bool_iff.
Qed.

(** The keys of a grouping: every value present, once. *)
Lemma occ_keys x l :
  occ x (Series.sorted (Series.unique l)) =
  if existsb (Qeq_bool x) l then 1%nat else 0%nat.
Proof. now rewrite occ_sorted, occ_unique. Qed.

Lemma list_sum_indicator {A} (p : A -> bool) (l : list A) :
  list_sum (List.map (fun x => if p x then 1%nat else 0%nat) l) =
  List.length (List.filter p l).
Proof.
  induction l as [|x l IH]; simpl; [reflexivity|].
  destruct (p x); simpl; lia.
Qed.

Lemma list_sum_plus {A} (f g : A -> nat) (l : list A) :
  list_sum (List.map (fun x => (f x + g x)%nat) l) =
  (list_sum (List.map f l) + list_sum (List.map g l))%nat.
Proof. induction l as [|x l IH]; simpl; lia. Qed.

Lemma list_sum_ones {A} (f : A -> nat) (l : list A) :
  (forall x, In x l -> f x = 1%nat) ->
  list_sum (List.map f l) = List.length l.
Proof.
  induction l as [|x l IH]; intros H; simpl; [reflexivity|].
  rewrite (H x (or_introl eq_refl)), IH; [reflexivity|].
  intros y Hy. apply H. now right.
Qed.

(** Counting the rows group by group, or row by row. *)
Lemma group_sizes_by_row {A} (key : A -> Q) (R : list A) (K : list Q) :
  list_sum
    (List.map
       (fun k => List.length (List.filter (fun r => Qeq_bool (key r) k) R)) K) =
  list_sum (List.map (fun r => occ (key r) K) R).
Proof.
  induction K as [|k K IH]; simpl.
  - symmetry. induction R as [|r R IHR]; simpl; [reflexivity|assumption].
  - rewrite IH.
    rewrite (map_ext (fun r => occ (key r) (k :: K))
               (fun r => ((if Qeq_bool (key r) k then 1 else 0)
                          + occ (key r) K)%nat)) by (intros; apply occ_cons).
    now rewrite list_sum_plus, list_sum_indicator.
Qed.



(** The groups cover the table without overlap: their sizes add up to
    the number of rows. *)
Lemma groupby_sizes key d :
  list_sum (List.map (fun kg => len (snd kg)) (groupby key d)) = len d.
Proof.
  unfold groupby, len. rewrite List.map_map. simpl.
  rewrite (group_sizes_by_row (fun r : Row => key r)).
  apply list_sum_ones. intros r Hr.
  rewrite occ_keys.
  replace (existsb (Qeq_bool (key r)) (column key d)) with true; [reflexivity|].
  symmetry. apply existsb_Qeq. exists (key r). split; [|reflexivity].
  unfold column. apply in_map_iff. now exists r.
Qed.

(** ** Ascending keys *)

Lemma In_insert_sorted x y s :
  In x (Series.insert_sorted y s) <-> x = y \/ In x s.
Proof.
  induction s as [|z s IH]; simpl; [intuition congruence|].
  destruct (Qle_bool y z); simpl; [intuition congruence|].
  rewrite IH. intuition congruence.
Qed.

Lemma In_sorted x l : In x (Series.sorted l) <-> In x l.
Proof.
  induction l as [|y l IH]; [reflexivity|].
  change (Series.sorted (y :: l))
    with (Series.insert_sorted y (Series.sorted l)).
  rewrite In_insert_sorted, IH. simpl. intuition congruence.
Qed.

Lemma insert_sorted_ascending x s :
  StronglySorted Qle s -> StronglySorted Qle (Series.insert_sorted x s).
Proof.
  induction 1 as [|z s Hs IH Hz]; simpl.
  - repeat constructor.
  - destruct (Qle_bool x z) eqn:E.
    + apply Qle_bool_iff in E. constructor; [now constructor|].
      constructor; [assumption|].
      apply List.Forall_forall. intros u Hu.
      apply Qle_trans with z; [assumption|].
      revert u Hu. now apply List.Forall_forall.
    + assert (Hzx : z <= x).
      { apply Qlt_le_weak, Qnot_le_lt. intros H.
        apply Qle_bool_iff in H. congruence. }
      constructor; [assumption|].
      apply List.Forall_forall. intros u Hu.
      apply In_insert_sorted in Hu. destruct Hu as [->|Hu]; [assumption|].
      revert u Hu. now apply List.Forall_forall.
Qed.

Lemma sorted_ascending l : StronglySorted Qle (Series.sorted l).
Proof.
  induction l as [|y l IH]; [constructor|].
  change (Series.sorted (y :: l))
    with (Series.insert_sorted y (Series.sorted l)).
  now apply insert_sorted_ascending.
Qed.

Lemma ascending_strict K :
  StronglySorted Qle K -> (forall x, (occ x K <= 1)%nat) ->
  StronglySorted Qlt K.
Proof.
  induction 1 as [|a K HK IH Ha]; intros Hocc; [constructor|].
  constructor.
  - apply IH. intros x. specialize (Hocc x). rewrite occ_cons in Hocc. lia.
  - apply List.Forall_forall. intros y Hy.
    assert (Hay : a <= y) by (revert y Hy; now apply List.Forall_forall).
    destruct (Qeq_bool a y) eqn:E.
    + exfalso. specialize (Hocc a). rewrite occ_cons in Hocc.
      assert (Hpos : (0 < occ a K)%nat).
      { apply occ_positive. exists y. split; [assumption|].
        now apply Qeq_bool_iff. }
      replace (Qeq_bool a a) with true in Hocc; [lia|].
      symmetry. now apply Qeq_bool_iff.
    + apply Qle_lteq in Hay. destruct Hay as [Hlt|Heq]; [assumption|].
      apply Qeq_bool_iff in Heq. congruence.
Qed.

(** The keys of a grouping are strictly ascending. *)
Lemma keys_ascending l :
  StronglySorted Qlt (Series.sorted (Series.unique l)).
Proof.
  apply ascending_strict; [apply sorted_ascending|].
  intros x. rewrite occ_keys. destruct (existsb _ _); lia.
Qed.

(** A value is a key exactly when some entry carries it. *)
Lemma keys_present l k :
  In k (Series.sorted (Series.unique l)) -> exists y, In y l /\ k == y.
Proof.
  intros Hk.
  assert (Hpos : (0 < occ k (Series.sorted (Series.unique l)))%nat).
  { apply occ_positive. exists k. now split. }
  rewrite occ_keys in Hpos.
  destruct (existsb (Qeq_bool k) l) eqn:E; [|lia].
  now apply existsb_Qeq.
Qed.

Lemma keys_complete l y :
  In y l -> exists k, In k (Series.sorted (Series.unique l)) /\ y == k.
Proof.
  intros Hy. apply occ_positive. rewrite occ_keys.
  replace (existsb (Qeq_bool y) l) with true; [lia|].
  symmetry. apply existsb_Qeq. exists y. now split.
Qed.

(** ** Grouping by range gate (C7) *)



(** ** Effects of the analysis functions on live tables *)

Lemma keeps_ret {A} (a : A) : keeps (ret a).
Proof. intros w l d H. exact H. Qed.

Lemma keeps_raise {A} e : keeps (@raise A e).
Proof. intros w l d H. exact H. Qed.

Lemma keeps_deref l : keeps (deref l).
Proof. intros w l' d H. exact H. Qed.

Lemma keeps_emit e : keeps (emit e).
Proof. intros w l d H. exact H. Qed.

Lemma keeps_alloc d : keeps (alloc d).
Proof.
  intros w l d' H. unfold alloc. cbn [snd heap].
  rewrite lookup_insert_ne; [assumption|]. now apply fresh_not_live with d'.
Qed.

Lemma keeps_truediv a b : keeps (truediv a b).
Proof. destruct b; [apply keeps_raise|apply keeps_ret]. Qed.

Lemma keeps_bind {A B} (m : M A) (k : A -> M B) :
  keeps m -> (forall a, keeps (k a)) -> keeps (bind m k).
Proof.
  intros Hm Hk w l d H. unfold bind.
  specialize (Hm w l d H). destruct (m w) as [[a|e] w1]; cbn [snd] in *.
  - now apply Hk.
  - assumption.
Qed.

Lemma total_ret {A} (a : A) : total (ret a).
Proof. intros w. now exists a. Qed.

Lemma total_deref l : total (deref l).
Proof. intros w. eexists. reflexivity. Qed.

Lemma total_emit e : total (emit e).
Proof. intros w. now exists tt. Qed.

Lemma total_alloc d : total (alloc d).
Proof. intros w. eexists. reflexivity. Qed.

Lemma total_bind {A B} (m : M A) (k : A -> M B) :
  total m -> (forall a, total (k a)) -> total (bind m k).
Proof.
  intros Hm Hk w. unfold bind. destruct (Hm w) as [a Ha].
  destruct (m w) as [[a'|e] w1]; cbn [fst] in Ha; [|discriminate].
  apply Hk.
Qed.

Lemma total_truediv a b : b <> 0%nat -> total (truediv a b).
Proof. destruct b; [congruence|]. intros _. apply total_ret. Qed.

Ltac keeps_steps :=
  repeat first
    [ apply keeps_ret | apply keeps_deref | apply keeps_emit
    | apply keeps_alloc | apply keeps_truediv | apply keeps_raise
    | apply keeps_bind; [|intro]
    | match goal with
      | |- keeps (if ?c then _ else _) => destruct c
      | |- keeps (match ?x with [] => _ | _ :: _ => _ end) => destruct x
      end ].

Ltac total_steps :=
  repeat first
    [ apply total_ret | apply total_deref | apply total_emit
    | apply total_alloc
    | apply total_bind; [|intro]
    | match goal with
      | |- total (if ?c then _ else _) => destruct c eqn:?
      | |- total (match ?x with [] => _ | _ :: _ => _ end) => destruct x
      end ].

Lemma apply_cnr_filter_keeps df t : keeps (apply_cnr_filter df t).
Proof. unfold apply_cnr_filter. keeps_steps. Qed.

Lemma single_angle_statistics_keeps df az el :
  keeps (single_angle_statistics df az el).
Proof. unfold single_angle_statistics. keeps_steps. Qed.

Lemma print_angle_statistics_keeps st az el :
  keeps (print_angle_statistics st az el).
Proof. unfold print_angle_statistics. keeps_steps. Qed.

Lemma analyze_rws_by_distance_keeps df az el :
  keeps (analyze_rws_by_distance df az el).
Proof. unfold analyze_rws_by_distance. keeps_steps. Qed.

Lemma plot_rws_distribution_keeps df az el :
  keeps (plot_rws_distribution df az el).
Proof. unfold plot_rws_distribution. keeps_steps. Qed.

Lemma compare_cnr_filtering_keeps df az el t :
  keeps (compare_cnr_filtering df az el t).
Proof. unfold compare_cnr_filtering. keeps_steps. Qed.

Lemma compare_azimuths_keeps df el : keeps (compare_azimuths df el).
Proof. unfold compare_azimuths. keeps_steps. Qed.

Lemma compare_elevations_keeps df az : keeps (compare_elevations df az).
Proof. unfold compare_elevations. keeps_steps. Qed.

Lemma plot_azimuth_distance_heatmap_keeps df el :
  keeps (plot_azimuth_distance_heatmap df el).
Proof. unfold plot_azimuth_distance_heatmap. keeps_steps. Qed.

Lemma plot_elevation_distance_heatmap_keeps df az :
  keeps (plot_elevation_distance_heatmap df az).
Proof. unfold plot_elevation_distance_heatmap. keeps_steps. Qed.

Lemma plot_wind_rose_keeps df : keeps (plot_wind_rose df).
Proof. unfold plot_wind_rose. keeps_steps. Qed.

Lemma single_angle_statistics_total df az el :
  total (single_angle_statistics df az el).
Proof. unfold single_angle_statistics. total_steps. Qed.

Lemma print_angle_statistics_total st az el :
  total (print_angle_statistics st az el).
Proof. unfold print_angle_statistics. total_steps. Qed.

Lemma analyze_rws_by_distance_total df az el :
  total (analyze_rws_by_distance df az el).
Proof. unfold analyze_rws_by_distance. total_steps. Qed.

Lemma plot_rws_distribution_total df az el :
  total (plot_rws_distribution df az el).
Proof. unfold plot_rws_distribution. total_steps. Qed.

(** The ratio printed by [compare_cnr_filtering] is taken after the
    selection was found to have rows, so the division is defined. *)
Lemma compare_cnr_filtering_total df az el t :
  total (compare_cnr_filtering df az el t).
Proof.
  unfold compare_cnr_filtering. total_steps.
  apply total_truediv. intros E. rewrite E in *. discriminate.
Qed.

Lemma compare_azimuths_total df el : total (compare_azimuths df el).
Proof. unfold compare_azimuths. total_steps. Qed.

Lemma compare_elevations_total df az : total (compare_elevations df az).
Proof. unfold compare_elevations. total_steps. Qed.

Lemma plot_azimuth_distance_heatmap_total df el :
  total (plot_azimuth_distance_heatmap df el).
Proof. unfold plot_azimuth_distance_heatmap. total_steps. Qed.

Lemma plot_elevation_distance_heatmap_total df az :
  total (plot_elevation_distance_heatmap df az).
Proof. unfold plot_elevation_distance_heatmap. total_steps. Qed.

Lemma plot_wind_rose_total df : total (plot_wind_rose df).
Proof. unfold plot_wind_rose. total_steps. Qed.

(** ** The overview adds a column in place *)

Lemma get_data_overview_run w df d :
  heap w !! df = Some d -> dtype_of d = float64 ->
  get_data_overview df w =
    (Ok df,
     mkWorld (alter (setitem_AngleComb angle_comb) df (heap w))
       ((console w ++ [PrintOverview (overview_of d)]) ++
        [PrintAngleCombinations
           (List.length
              (distinct angle_comb_eqb
                 (List.map AngleComb
                    (rows (setitem_AngleComb angle_comb d)))))])).
Proof.
  intros H Hd.
  unfold get_data_overview, round_angles, bind, deref, emit, update, ret.
  cbn [heap console]. rewrite H, Hd. cbn [heap console].
  rewrite lookup_alter_eq, H. reflexivity.
Qed.

(** On columns of dtype [object] the overview is printed, the rounding
    raises and the table is not assigned to. *)
Lemma get_data_overview_raises w df d :
  heap w !! df = Some d -> dtype_of d = object ->
  get_data_overview df w =
    (Raise TypeError,
     mkWorld (heap w) (console w ++ [PrintOverview (overview_of d)])).
Proof.
  intros H Hd.
  unfold get_data_overview, round_angles, bind, deref, emit, update, raise.
  cbn [heap console]. rewrite H, Hd. reflexivity.
Qed.

Lemma setitem_AngleComb_fields v d :
  List.map fields (rows (setitem_AngleComb v d)) = List.map fields (rows d).
Proof.
  unfold setitem_AngleComb. cbn [rows]. rewrite List.map_map. reflexivity.
Qed.

Lemma setitem_AngleComb_len v d : len (setitem_AngleComb v d) = len d.
Proof. unfold len, setitem_AngleComb. cbn [rows]. apply length_map. Qed.

Lemma setitem_AngleComb_columns v d :
  In "AngleComb"%string (columns (setitem_AngleComb v d)) /\
  (forall c, In c (columns d) -> In c (columns (setitem_AngleComb v d))).
Proof.
  unfold setitem_AngleComb. cbn [columns].
  destruct (existsb (String.eqb "AngleComb") (columns d)) eqn:E.
  - split; [|auto]. apply existsb_exists in E. destruct E as (c & Hc & E).
    apply String.eqb_eq in E. now subst.
  - split; [|intros c Hc]; apply in_or_app; [right; now left|now left].
Qed.

(** A column of loaded cells, read through a mask on loaded cells, does
    not see the added column. *)
Lemma column_setitem_AngleComb (f : LidarRecord -> Q)
    (mask : LidarRecord -> bool) v d :
  column f (boolean_index (fun r : Row => mask r) (setitem_AngleComb v d)) =
  column f (boolean_index (fun r : Row => mask r) d).
Proof.
  unfold column, boolean_index, setitem_AngleComb. cbn [rows].
  induction (rows d) as [|r l IH]; [reflexivity|].
  cbn [List.map List.filter fields].
  destruct (mask r); cbn [List.map fields]; now rewrite IH.
Qed.

Lemma column_setitem_AngleComb_all (f : LidarRecord -> Q) v d :
  column f (setitem_AngleComb v d) = column f d.
Proof.
  unfold column, setitem_AngleComb. cbn [rows]. now rewrite List.map_map.
Qed.

Lemma azimuth_stats_setitem_AngleComb v d :
  azimuth_stats_of (setitem_AngleComb v d) = azimuth_stats_of d.
Proof.
  unfold azimuth_stats_of, groupby. rewrite !List.map_map.
  rewrite column_setitem_AngleComb_all. apply map_ext. intros k.
  cbn [fst snd].
  now rewrite (column_setitem_AngleComb RWS (fun r => Qeq_bool (Azimuth r) k)).
Qed.

(** ** The wind rose (C8) *)

Lemma plot_wind_rose_run w df d :
  heap w !! df = Some d ->
  plot_wind_rose df w =
    (Ok tt,
     mkWorld (heap w)
       (console w ++
        [SaveFig (wind_rose
                    (List.map (fun s => (az_azimuth s, az_abs_mean s))
                       (azimuth_stats_of d)))])).
Proof.
  intros H. unfold plot_wind_rose, bind, deref, emit. now rewrite H.
Qed.

Lemma bind_run {A B} (m : M A) (k : A -> M B) w a w1 :
  m w = (Ok a, w1) -> bind m k w = k a w1.
Proof. intros E. unfold bind. now rewrite E. Qed.

Lemma bind_total_keeps {A B} (m : M A) (k : A -> M B)
    (P : result B * world -> Prop) w :
  total m -> keeps m ->
  (forall a w1,
     (forall l d, heap w !! l = Some d -> heap w1 !! l = Some d) ->
     P (k a w1)) ->
  P (bind m k w).
Proof.
  intros Ht Hk H. unfold bind.
  destruct (Ht w) as [a Ha]. specialize (Hk w).
  destruct (m w) as [[a'|e] w1]; cbn [fst snd] in *; [|discriminate].
  now apply H.
Qed.

Create HintDb stages.

#[local] Hint Resolve
  single_angle_statistics_keeps print_angle_statistics_keeps
  analyze_rws_by_distance_keeps plot_rws_distribution_keeps
  compare_cnr_filtering_keeps compare_azimuths_keeps compare_elevations_keeps
  plot_azimuth_distance_heatmap_keeps plot_elevation_distance_heatmap_keeps
  plot_wind_rose_keeps keeps_ret
  single_angle_statistics_total print_angle_statistics_total
  analyze_rws_by_distance_total plot_rws_distribution_total
  compare_cnr_filtering_total compare_azimuths_total compare_elevations_total
  plot_azimuth_distance_heatmap_total plot_elevation_distance_heatmap_total
  plot_wind_rose_total total_ret : stages.

(** The whole program, on a file with lines: it ends normally, the loaded
    table has gained the ['AngleComb'] column and nothing else, and the
    last figure is the wind rose of all lines of the file. *)
Lemma main_run (file : list LidarRecord) :
  file <> [] ->
  exists w' c,
    main file start = (Ok tt, w') /\
    heap w' !! fresh (dom (heap start)) =
      Some (setitem_AngleComb angle_comb (loaded file)) /\
    console w' =
      c ++ [SaveFig (wind_rose
                       (List.map (fun s => (az_azimuth s, az_abs_mean s))
                          (azimuth_stats_of (loaded file))))].
Proof.
  intros Hne. unfold main.
  set (l0 := fresh (dom (heap start))).
  set (d1 := setitem_AngleComb angle_comb (loaded file)).
  rewrite (bind_run _ _ start l0
             (mkWorld (<[l0 := loaded file]> (heap start))
                (console start ++ [PrintLoaded (List.length file)])))
    by reflexivity.
  erewrite bind_run;
    [|apply get_data_overview_run with (d := loaded file);
      [cbn [heap]; apply lookup_insert_eq|now apply dtype_of_loaded]].
  match goal with
  | |- context [bind (deref l0) _ ?w] =>
      assert (Hl : heap w !! l0 = Some d1)
        by (cbn [heap]; now rewrite lookup_alter_eq, lookup_insert_eq);
      rewrite (bind_run (deref l0) _ w d1 w)
        by (unfold deref; now rewrite Hl);
      generalize dependent w
  end.
  intros w Hl.
  erewrite bind_run by reflexivity.
  match goal with
  | |- context [bind _ _ ?w0] =>
      assert (Hl0 : heap w0 !! l0 = Some d1) by exact Hl;
      generalize dependent w0
  end.
  intros w0 Hl0. clear Hl w.
  generalize (Series.sorted (Series.unique (column Azimuth d1))).
  generalize (Series.sorted (Series.unique (column Elevation d1))).
  intros elevations azimuths.
  apply bind_total_keeps.
  { destruct azimuths, elevations;
      repeat first [solve [auto with stages] | apply total_bind; [|intro]]. }
  { destruct azimuths, elevations;
      repeat first [solve [auto with stages] | apply keeps_bind; [|intro]]. }
  intros _ w1 H1. apply H1 in Hl0. clear H1 w0.
  apply bind_total_keeps;
    [destruct elevations; auto with stages
    |destruct elevations; auto with stages|].
  intros _ w2 H2. apply H2 in Hl0. clear H2 w1.
  apply bind_total_keeps;
    [destruct azimuths; auto with stages
    |destruct azimuths; auto with stages|].
  intros _ w3 H3. apply H3 in Hl0. clear H3 w2.
  apply bind_total_keeps;
    [destruct elevations; auto with stages
    |destruct elevations; auto with stages|].
  intros _ w4 H4. apply H4 in Hl0. clear H4 w3.
  apply bind_total_keeps;
    [destruct azimuths; auto with stages
    |destruct azimuths; auto with stages|].
  intros _ w5 H5. apply H5 in Hl0. clear H5 w4.
  rewrite (plot_wind_rose_run w5 l0 d1 Hl0).
  eexists _, (console w5). split; [reflexivity|]. cbn [heap console].
  split; [assumption|].
  unfold d1. now rewrite azimuth_stats_setitem_AngleComb.
Qed.

(** On a file without lines the program stops in the overview: the
    columns of the loaded table have the dtype [object], rounding them
    raises [TypeError], and no figure is drawn. *)
Lemma main_header_only :
  main [] start =
    (Raise TypeError,
     mkWorld (<[fresh (dom (heap start)) := loaded []]> (heap start))
       [PrintLoaded 0; PrintOverview (overview_of (loaded []))]).
Proof. reflexivity. Qed.

Lemma azimuth_stats_In s d :
  In s (azimuth_stats_of d) <->
  exists k,
    In k (Series.sorted (Series.unique (column Azimuth d))) /\
    s = mkAzimuthStat k
          (Series.mean
             (column RWS
                (boolean_index (fun r : Row => Qeq_bool (Azimuth r) k) d)))
          (Series.mean
             (Series.abs
                (column RWS
                   (boolean_index (fun r : Row => Qeq_bool (Azimuth r) k) d)))).
Proof.
  unfold azimuth_stats_of, groupby. rewrite List.map_map, in_map_iff.
  cbn [fst snd]. split; intros (k & H1 & H2); exists k; split; auto.
Qed.

Lemma azimuth_stats_keys d :
  List.map az_azimuth (azimuth_stats_of d) =
  Series.sorted (Series.unique (column Azimuth d)).
Proof.
  unfold azimuth_stats_of, groupby. rewrite !List.map_map. cbn [fst snd az_azimuth].
  apply map_id.
Qed.

(** C8: the wind rose is drawn from the whole table.  Its buckets are the
    distinct azimuth values present, in strictly ascending order; a row
    goes to the bucket of exactly its own azimuth whatever its CNR and
    elevation, so the bucket sizes add up to the number of rows; the
    radius of a bucket is the mean of |RWS| over all rows with exactly
    that azimuth; and [main] passes the loaded table, so on a file with at
    least one line the figure it saves last is the wind rose of every line
    of the file.  (On a file without lines [main] stops in the overview
    with [TypeError] and reaches no figure.) *)
Theorem wind_rose_full_table (file : list LidarRecord) (d : DataFrame) :
  StronglySorted Qlt (List.map az_azimuth (azimuth_stats_of d)) /\
  (forall r : Row, In r (rows d) ->
     exists s, In s (azimuth_stats_of d) /\ Azimuth r == az_azimuth s /\
       In r (rows (boolean_index
                     (fun r0 : Row => Qeq_bool (Azimuth r0) (az_azimuth s)) d))) /\
  (forall s, In s (azimuth_stats_of d) ->
     let bucket :=
       boolean_index (fun r : Row => Qeq_bool (Azimuth r) (az_azimuth s)) d in
     (exists r : Row, In r (rows d) /\ Azimuth r == az_azimuth s) /\
     (forall r : Row, In r (rows bucket) <->
                      In r (rows d) /\ Azimuth r == az_azimuth s) /\
     az_abs_mean s =
       Series.mean (List.map (fun r : Row => Qabs (RWS r)) (rows bucket)) /\
     az_abs_mean s <> None) /\
  list_sum
    (List.map
       (fun s => len (boolean_index
                        (fun r : Row => Qeq_bool (Azimuth r) (az_azimuth s)) d))
       (azimuth_stats_of d)) = len d /\
  (file <> [] ->
   exists w' c,
     main file start = (Ok tt, w') /\
     console w' =
       c ++ [SaveFig (wind_rose
                        (List.map (fun s => (az_azimuth s, az_abs_mean s))
                           (azimuth_stats_of (loaded file))))]) /\
  fst (main [] start) = Raise TypeError.
Proof.
  split; [|split; [|split; [|split; [|split]]]].
  - rewrite azimuth_stats_keys. apply keys_ascending.
  - intros r Hr.
    destruct (keys_complete (column Azimuth d) (Azimuth r)) as (k & Hk & E).
    { unfold column. apply in_map_iff. now exists r. }
    eexists. split; [apply azimuth_stats_In; exists k; split; eauto|].
    cbn [az_azimuth]. split; [assumption|].
    apply boolean_index_In. split; [assumption|]. now apply Qeq_bool_iff.
  - intros s Hs. apply azimuth_stats_In in Hs. destruct Hs as (k & Hk & ->).
    cbn [az_azimuth az_abs_mean].
    destruct (keys_present _ _ Hk) as (y & Hy & E).
    unfold column in Hy. apply in_map_iff in Hy. destruct Hy as (r & <- & Hr).
    assert (Hin : In r (rows (boolean_index
                     (fun r0 : Row => Qeq_bool (Azimuth r0) k) d))).
    { apply boolean_index_In. split; [assumption|].
      apply Qeq_bool_iff. now symmetry. }
    split; [exists r; split; [assumption|now symmetry]|].
    split; [intros r'; rewrite boolean_index_In, Qeq_bool_iff; reflexivity|].
    split.
    + unfold Series.abs, column. now rewrite List.map_map.
    + unfold Series.abs, column.
      destruct (rows (boolean_index
                        (fun r0 : Row => Qeq_bool (Azimuth r0) k) d));
        [contradiction|discriminate].
  - rewrite <- (groupby_sizes Azimuth d).
    unfold azimuth_stats_of, groupby. rewrite !List.map_map.
    reflexivity.
  - intros Hne.
    destruct (main_run file Hne) as (w' & c & H1 & _ & H3). now exists w', c.
  - reflexivity.
Qed.

(** ** Empty samples (C3) *)

Lemma single_angle_statistics_defined w df d az el st :
  heap w !! df = Some d ->
  fst (single_angle_statistics df az el w) = Ok (Some st) ->
  st_count st <> 0%nat /\ st_mean st <> None /\ st_median st <> None /\
  st_min st <> None /\ st_max st <> None.
Proof.
  intros H. rewrite (single_angle_statistics_run w df d az el H).
  destruct (column RWS (boolean_index (angle_mask az el) d)) as [|x s];
    cbn [fst]; intros E; inversion E; subst; clear E.
  unfold angle_stats_of.
  cbn [st_count st_mean st_median st_min st_max].
  repeat split; try discriminate.
  unfold Series.median.
  assert (Hs : In x (Series.sorted (x :: s))) by (apply In_sorted; now left).
  destruct (Series.sorted (x :: s)); [contradiction|].
  destruct (Nat.even _); discriminate.
Qed.

(** The statistics of a table without rows: a count of 0 and four NaN. *)
Lemma cnr_stats_of_empty cols dt :
  cnr_stats_of (mkFrame cols dt []) = mkCnrStats 0 None None None None.
Proof. reflexivity. Qed.

(** C3 (the code departs from the claim): the claim wants every
    aggregation over zero records to be caught before aggregating.  In
    [compare_cnr_filtering] the selection is checked, the filtered
    selection is not.  On a file of two lines at one pointing direction,
    both below the threshold of -20 dB, [main] ends normally and has
    printed, as the statistics after filtering, a count of 0 with mean,
    deviation, minimum and maximum all NaN. *)
Theorem compare_cnr_filtering_prints_nan_summary :
  let file := [mkRecord 0 10 5 100 1 (-25); mkRecord 1 10 5 200 3 (-30)] in
  let o := main file start in
  fst o = Ok tt /\
  exists stats_before,
    cs_count stats_before = 2%nat /\
    cs_mean stats_before = Some 2 /\
    In (PrintCnrComparison 10 5 cnr_threshold stats_before
          (mkCnrStats 0 None None None None))
       (console (snd o)).
Proof.
  vm_compute.
  split; [reflexivity|].
  eexists. split; [|split]; [| |do 7 right; left; reflexivity]; reflexivity.
Qed.

(** ** Which functions change the loaded table (C9) *)

(** C9 (counterexample): the overview is not pure.  After loading a file
    of one line, [get_data_overview] leaves at the location of the loaded
    table a table with another column list and other rows: the statement
    that every stage keeps the input table as it was fails for it. *)
Lemma get_data_overview_changes_table :
  let file := [mkRecord 0 10 5 100 1 (-25)] in
  let w := snd (load_lidar_data file start) in
  heap w !! 0%nat = Some (loaded file) /\
  (exists d',
     heap (snd (get_data_overview 0%nat w)) !! 0%nat = Some d' /\
     columns d' = (loaded_columns ++ ["AngleComb"%string]) /\
     columns d' <> columns (loaded file) /\
     rows d' <> rows (loaded file)) /\
  ~ keeps (get_data_overview 0%nat).
Proof.
  cbv zeta.
  assert (H0 : heap (snd (load_lidar_data [mkRecord 0 10 5 100 1 (-25)] start))
               !! 0%nat = Some (loaded [mkRecord 0 10 5 100 1 (-25)]))
    by (vm_compute; reflexivity).
  split; [exact H0|]. split.
  - eexists. split; [vm_compute; reflexivity|].
    split; [reflexivity|]. split; discriminate.
  - intros K. specialize (K _ _ _ H0). vm_compute in K. discriminate.
Qed.

(** C9 (as amended): every function but the overview leaves the table it
    is given, and every other table that exists when it is called, exactly
    as it was, whatever else it allocates or prints; the table the filter
    returns is a new object, not in use before and distinct from its
    input.  The overview returns the very table it was given.  On a
    table with numeric columns it adds the ['AngleComb'] column to it in
    place: the six loaded cells of every row and the order of the rows are
    as before, every row has its new cell, the columns the table had are
    still there, and no other table is touched.  On a table read from a
    file without lines it raises [TypeError] and changes no table. *)
Theorem stages_keep_table_overview_adds_column w df d :
  heap w !! df = Some d ->
  (forall t, heap (snd (apply_cnr_filter df t w)) !! df = Some d) /\
  (forall az el,
     heap (snd (single_angle_statistics df az el w)) !! df = Some d /\
     heap (snd (analyze_rws_by_distance df az el w)) !! df = Some d /\
     heap (snd (plot_rws_distribution df az el w)) !! df = Some d /\
     (forall t, heap (snd (compare_cnr_filtering df az el t w)) !! df = Some d)) /\
  (forall el,
     heap (snd (compare_azimuths df el w)) !! df = Some d /\
     heap (snd (plot_azimuth_distance_heatmap df el w)) !! df = Some d) /\
  (forall az,
     heap (snd (compare_elevations df az w)) !! df = Some d /\
     heap (snd (plot_elevation_distance_heatmap df az w)) !! df = Some d) /\
  heap (snd (plot_wind_rose df w)) !! df = Some d /\
  (forall t az el,
     keeps (apply_cnr_filter df t) /\
     keeps (single_angle_statistics df az el) /\
     keeps (analyze_rws_by_distance df az el) /\
     keeps (plot_rws_distribution df az el) /\
     keeps (compare_cnr_filtering df az el t) /\
     keeps (compare_azimuths df el) /\
     keeps (compare_elevations df az) /\
     keeps (plot_azimuth_distance_heatmap df el) /\
     keeps (plot_elevation_distance_heatmap df az) /\
     keeps (plot_wind_rose df)) /\
  (forall t l w',
     apply_cnr_filter df t w = (Ok l, w') ->
     l <> df /\ heap w !! l = None /\
     heap w' !! l = Some (boolean_index (cnr_mask t) d)) /\
  (dtype_of d = float64 ->
   exists w' d',
     get_data_overview df w = (Ok df, w') /\
     heap w' !! df = Some d' /\
     List.map fields (rows d') = List.map fields (rows d) /\
     (forall r, In r (rows d') -> AngleComb r <> None) /\
     In "AngleComb"%string (columns d') /\
     (forall c, In c (columns d) -> In c (columns d')) /\
     (forall l, l <> df -> heap w' !! l = heap w !! l)) /\
  (dtype_of d = object ->
   exists w',
     get_data_overview df w = (Raise TypeError, w') /\ heap w' = heap w).
Proof.
  intros H.
  split; [intros t; now apply apply_cnr_filter_keeps|].
  split.
  { intros az el.
    split; [now apply single_angle_statistics_keeps|].
    split; [now apply analyze_rws_by_distance_keeps|].
    split; [now apply plot_rws_distribution_keeps|].
    intros t. now apply compare_cnr_filtering_keeps. }
  split.
  { intros el. split; [now apply compare_azimuths_keeps|].
    now apply plot_azimuth_distance_heatmap_keeps. }
  split.
  { intros az. split; [now apply compare_elevations_keeps|].
    now apply plot_elevation_distance_heatmap_keeps. }
  split; [now apply plot_wind_rose_keeps|].
  split.
  { intros t az el.
    split; [apply apply_cnr_filter_keeps|].
    repeat (split; [auto with stages|]). auto with stages. }
  split.
  { intros t l w' E. rewrite (apply_cnr_filter_run w df d t H) in E.
    destruct (len d); [discriminate|]. injection E as <- <-.
    split; [exact (fresh_not_live w df d H)|].
    split; [apply not_elem_of_dom, is_fresh|].
    cbn [heap]. apply lookup_insert_eq. }
  split.
  - intros Hd. eexists _, (setitem_AngleComb angle_comb d).
    split; [apply (get_data_overview_run w df d H Hd)|]. cbn [heap].
    split; [now rewrite lookup_alter_eq, H|].
    split; [apply setitem_AngleComb_fields|].
    split.
    { intros r Hr. unfold setitem_AngleComb in Hr. cbn [rows] in Hr.
      apply in_map_iff in Hr. destruct Hr as (r0 & <- & _). discriminate. }
    split; [apply (proj1 (setitem_AngleComb_columns _ _))|].
    split; [apply (proj2 (setitem_AngleComb_columns _ _))|].
    intros l Hl. apply lookup_alter_ne. congruence.
  - intros Hd. eexists.
    split; [apply (get_data_overview_raises w df d H Hd)|]. reflexivity.
Qed.

Lemma stages_keep_table_overview_adds_column_witness :
  let d := loaded [mkRecord 0 10 5 100 1 (-25); mkRecord 1 20 5 200 3 (-10)] in
  let w := snd (load_lidar_data
                  [mkRecord 0 10 5 100 1 (-25); mkRecord 1 20 5 200 3 (-10)]
                  start) in
  let df := 0%nat in
  (forall t, heap (snd (apply_cnr_filter df t w)) !! df = Some d) /\
  (forall az el,
     heap (snd (single_angle_statistics df az el w)) !! df = Some d /\
     heap (snd (analyze_rws_by_distance df az el w)) !! df = Some d /\
     heap (snd (plot_rws_distribution df az el w)) !! df = Some d /\
     (forall t, heap (snd (compare_cnr_filtering df az el t w)) !! df = Some d)) /\
  (forall el,
     heap (snd (compare_azimuths df el w)) !! df = Some d /\
     heap (snd (plot_azimuth_distance_heatmap df el w)) !! df = Some d) /\
  (forall az,
     heap (snd (compare_elevations df az w)) !! df = Some d /\
     heap (snd (plot_elevation_distance_heatmap df az w)) !! df = Some d) /\
  heap (snd (plot_wind_rose df w)) !! df = Some d /\
  (forall t az el,
     keeps (apply_cnr_filter df t) /\
     keeps (single_angle_statistics df az el) /\
     keeps (analyze_rws_by_distance df az el) /\
     keeps (plot_rws_distribution df az el) /\
     keeps (compare_cnr_filtering df az el t) /\
     keeps (compare_azimuths df el) /\
     keeps (compare_elevations df az) /\
     keeps (plot_azimuth_distance_heatmap df el) /\
     keeps (plot_elevation_distance_heatmap df az) /\
     keeps (plot_wind_rose df)) /\
  (forall t l w',
     apply_cnr_filter df t w = (Ok l, w') ->
     l <> df /\ heap w !! l = None /\
     heap w' !! l = Some (boolean_index (cnr_mask t) d)) /\
  (dtype_of d = float64 ->
   exists w' d',
     get_data_overview df w = (Ok df, w') /\
     heap w' !! df = Some d' /\
     List.map fields (rows d') = List.map fields (rows d) /\
     (forall r, In r (rows d') -> AngleComb r <> None) /\
     In "AngleComb"%string (columns d') /\
     (forall c, In c (columns d) -> In c (columns d')) /\
     (forall l, l <> df -> heap w' !! l = heap w !! l)) /\
  (dtype_of d = object ->
   exists w',
     get_data_overview df w = (Raise TypeError, w') /\ heap w' = heap w).
Proof.
  intros d w df.
  apply (stages_keep_table_overview_adds_column w df d).
  vm_compute. reflexivity.
Defined.

(** * Further properties of the analysis functions *)

(** ** Minimum and maximum of a sample *)

Lemma Qmin_cases x y : Qmin x y = x \/ Qmin x y = y.
Proof.
  unfold Qmin, GenericMinMax.gmin. destruct (x ?= y)%Q; auto.
Qed.

Lemma Qmax_cases x y : Qmax x y = x \/ Qmax x y = y.
Proof.
  unfold Qmax, GenericMinMax.gmax. destruct (x ?= y)%Q; auto.
Qed.

Lemma fold_Qmin_spec r x :
  (fold_left Qmin r x = x \/ In (fold_left Qmin r x) r) /\
  fold_left Qmin r x <= x /\
  (forall y, In y r -> fold_left Qmin r x <= y).
Proof.
  revert x. induction r as [|z r IH]; intros x; simpl.
  - split; [now left|]. split; [apply Qle_refl|contradiction].
  - destruct (IH (Qmin x z)) as (Hin & Hle & Hall).
    split; [|split].
    + destruct Hin as [E|Hin]; [|right; now right].
      rewrite E. destruct (Qmin_cases x z) as [->| ->]; auto.
    + apply Qle_trans with (Qmin x z); [assumption|apply Q.le_min_l].
    + intros y [<-|Hy]; [|now apply Hall].
      apply Qle_trans with (Qmin x z); [assumption|apply Q.le_min_r].
Qed.

Lemma fold_Qmax_spec r x :
  (fold_left Qmax r x = x \/ In (fold_left Qmax r x) r) /\
  x <= fold_left Qmax r x /\
  (forall y, In y r -> y <= fold_left Qmax r x).
Proof.
  revert x. induction r as [|z r IH]; intros x; simpl.
  - split; [now left|]. split; [apply Qle_refl|contradiction].
  - destruct (IH (Qmax x z)) as (Hin & Hle & Hall).
    split; [|split].
    + destruct Hin as [E|Hin]; [|right; now right].
      rewrite E. destruct (Qmax_cases x z) as [->| ->]; auto.
    + apply Qle_trans with (Qmax x z); [apply Q.le_max_l|assumption].
    + intros y [<-|Hy]; [|now apply Hall].
      apply Qle_trans with (Qmax x z); [apply Q.le_max_r|assumption].
Qed.

(** The minimum is a value of the sample and a lower bound of it. *)
Lemma min_spec s m :
  Series.min s = Some m -> In m s /\ forall y, In y s -> m <= y.
Proof.
  destruct s as [|x r]; [discriminate|]. cbn [Series.min].
  intros E. inversion E; subst; clear E.
  destruct (fold_Qmin_spec r x) as (Hin & Hle & Hall).
  split.
  - destruct Hin as [->|Hin]; [now left|now right].
  - intros y [<-|Hy]; auto.
Qed.

Lemma max_spec s m :
  Series.max s = Some m -> In m s /\ forall y, In y s -> y <= m.
Proof.
  destruct s as [|x r]; [discriminate|]. cbn [Series.max].
  intros E. inversion E; subst; clear E.
  destruct (fold_Qmax_spec r x) as (Hin & Hle & Hall).
  split.
  - destruct Hin as [->|Hin]; [now left|now right].
  - intros y [<-|Hy]; auto.
Qed.

Lemma len_positive x (s : Series.t) :
  0 < inject_Z (Z.of_nat (Series.len (x :: s))).
Proof.
  unfold Series.len. cbn [List.length].
  change 0 with (inject_Z 0). rewrite <- Zlt_Qlt. lia.
Qed.

(** ** Order statistics *)

Lemma length_insert_sorted x s :
  List.length (Series.insert_sorted x s) = S (List.length s).
Proof.
  induction s as [|y s IH]; [reflexivity|]. cbn [Series.insert_sorted].
  destruct (Qle_bool x y); cbn [List.length]; [reflexivity|now rewrite IH].
Qed.

Lemma length_sorted s : List.length (Series.sorted s) = List.length s.
Proof.
  induction s as [|x s IH]; [reflexivity|].
  change (Series.sorted (x :: s))
    with (Series.insert_sorted x (Series.sorted s)).
  rewrite length_insert_sorted, IH. reflexivity.
Qed.





Lemma sorted_cons x s :
  exists x0 o, Series.sorted (x :: s) = x0 :: o.
Proof.
  assert (H := length_sorted (x :: s)).
  destruct (Series.sorted (x :: s)) as [|x0 o]; [discriminate|]. eauto.
Qed.






Lemma median_defined x s : exists m, Series.median (x :: s) = Some m.
Proof.
  unfold Series.median. destruct (sorted_cons x s) as (x0 & o & ->).
  destruct (Nat.even _); eauto.
Qed.

(** The sample deviation is NaN exactly below two values. *)
Lemma std_nan s : Series.std s = None <-> (Series.len s <= 1)%nat.
Proof.
  unfold Series.std, Series.var, Series.len.
  destruct s as [|x [|y s]]; cbn [option_map List.length];
    split; intros H; try reflexivity; try lia; discriminate.
Qed.

(** ** What [single_angle_statistics] returns *)

Lemma filter_nil_iff {A} (p : A -> bool) (l : list A) :
  List.filter p l = [] <-> forall x, In x l -> p x = false.
Proof.
  induction l as [|x l IH]; simpl; [tauto|].
  destruct (p x) eqn:E.
  - split; [discriminate|]. intros H. specialize (H x (or_introl eq_refl)).
    congruence.
  - rewrite IH. split; [intros H y [<-|Hy]; auto|auto].
Qed.





(** X2: on a table without missing speeds, whenever
    [single_angle_statistics] returns statistics, mean, median, minimum
    and maximum are numbers (not NaN), the minimum and the maximum are
    speeds of selected rows and bound every selected speed, and the
    deviation is NaN exactly when a single row was selected. *)
Theorem single_angle_statistics_bounds w df d az el st :
  heap w !! df = Some d ->
  fst (single_angle_statistics df az el w) = Ok (Some st) ->
  let data := column RWS (boolean_index (angle_mask az el) d) in
  exists mn mx mean med,
    st_min st = Some mn /\ st_max st = Some mx /\
    st_mean st = Some mean /\ st_median st = Some med /\
    In mn data /\ In mx data /\
    (forall v, In v data -> mn <= v <= mx) /\
    (st_std st = None <-> st_count st = 1%nat).
Proof.
  intros H. rewrite (single_angle_statistics_run w df d az el H). cbv zeta.
  destruct (column RWS (boolean_index (angle_mask az el) d)) as [|x s] eqn:Ed;
    cbn [fst]; intros E; [discriminate|].
  injection E as <-. unfold angle_stats_of.
  cbn [st_min st_max st_mean st_median st_std st_count].
  destruct (Series.min (x :: s)) as [mn|] eqn:Hmn; [|discriminate].
  destruct (Series.max (x :: s)) as [mx|] eqn:Hmx; [|discriminate].
  destruct (Series.mean (x :: s)) as [mean|] eqn:Hmean; [|discriminate].
  destruct (median_defined x s) as [med Hmed]. rewrite Hmed.
  destruct (min_spec _ _ Hmn) as [Imn Lmn].
  destruct (max_spec _ _ Hmx) as [Imx Lmx].
  exists mn, mx, mean, med.
  repeat (split; [reflexivity || assumption|]).
  split; [intros v Hv; split; auto|].
  rewrite std_nan. unfold Series.len. cbn [List.length]. lia.
Qed.

Lemma single_angle_statistics_bounds_witness :
  let file := [mkRecord 0 10 5 100 1 (-25); mkRecord 1 10 5 200 3 (-10);
               mkRecord 2 20 5 200 7 (-10)] in
  let w := snd (load_lidar_data file start) in
  let df := 0%nat in
  let d := loaded file in
  let az := 10 in
  let el := 5 in
  let st := angle_stats_of [1; 3] in
  let data := column RWS (boolean_index (angle_mask az el) d) in
  exists mn mx mean med,
    st_min st = Some mn /\ st_max st = Some mx /\
    st_mean st = Some mean /\ st_median st = Some med /\
    In mn data /\ In mx data /\
    (forall v, In v data -> mn <= v <= mx) /\
    (st_std st = None <-> st_count st = 1%nat).
Proof.
  intros file w df d az el st.
  apply (single_angle_statistics_bounds w df d az el st);
    vm_compute; reflexivity.
Defined.

(** ** The quantile curve of [plot_rws_distribution] *)

Lemma plot_rws_distribution_run w df d az el :
  heap w !! df = Some d ->
  let data :=
    Series.dropna (column RWS (boolean_index (angle_mask az el) d)) in
  plot_rws_distribution df az el w =
    (Ok tt,
     mkWorld (heap w)
       (console w ++
        [match data with
         | [] => Warn (NoAngleData az el)
         | _ => SaveFig (rws_distribution az el data
                           (List.map (Series.quantile data) percent_grid))
         end])).
Proof.
  intros H. cbv zeta. unfold plot_rws_distribution, bind, deref, emit.
  rewrite H. unfold Series.dropna.
  destruct (column RWS (boolean_index (angle_mask az el) d)); reflexivity.
Qed.





(** ** More on [apply_cnr_filter] *)

Lemma apply_cnr_filter_ok w df d t :
  heap w !! df = Some d -> rows d <> [] ->
  let l := fresh (dom (heap w)) in
  let f := boolean_index (cnr_mask t) d in
  apply_cnr_filter df t w =
    (Ok l,
     mkWorld (<[l := f]> (heap w))
       (console w ++
        [PrintFilterCounts t (len d) (len f);
         PrintRetained
           (inject_Z (Z.of_nat (len f)) / inject_Z (Z.of_nat (len d)) * 100)])).
Proof.
  intros H Hne. cbv zeta. rewrite (apply_cnr_filter_run w df d t H).
  destruct (len d) eqn:Hn; [apply len_zero_rows in Hn; congruence|].
  now rewrite <- app_assoc.
Qed.

Lemma filter_filter_andb {A} (p q : A -> bool) (l : list A) :
  List.filter q (List.filter p l) = List.filter (fun x => p x && q x) l.
Proof.
  induction l as [|x l IH]; simpl; [reflexivity|].
  destruct (p x); simpl; [destruct (q x); now rewrite IH|assumption].
Qed.

Lemma cnr_mask_max t1 t2 (r : Row) :
  cnr_mask t1 r && cnr_mask t2 r = cnr_mask (Qmax t1 t2) r.
Proof.
  destruct (cnr_mask (Qmax t1 t2) r) eqn:E.
  - apply cnr_mask_spec in E. apply andb_true_iff.
    rewrite !cnr_mask_spec. split.
    + eapply Qle_trans; [apply Q.le_max_l|exact E].
    + eapply Qle_trans; [apply Q.le_max_r|exact E].
  - apply andb_false_iff.
    destruct (cnr_mask t1 r) eqn:E1; [|now left].
    destruct (cnr_mask t2 r) eqn:E2; [|now right].
    exfalso. apply cnr_mask_spec in E1, E2.
    assert (H : cnr_mask (Qmax t1 t2) r = true).
    { apply cnr_mask_spec. destruct (Qmax_cases t1 t2) as [-> | ->]; auto. }
    congruence.
Qed.

Lemma filter_twice_rows t1 t2 d :
  rows (boolean_index (cnr_mask t2) (boolean_index (cnr_mask t1) d)) =
  List.filter (cnr_mask (Qmax t1 t2)) (rows d).
Proof.
  cbn [boolean_index rows]. rewrite filter_filter_andb.
  apply filter_ext. intros r. apply cnr_mask_max.
Qed.

Lemma Qmax_swap_mask t1 t2 (r : Row) :
  cnr_mask (Qmax t1 t2) r = cnr_mask (Qmax t2 t1) r.
Proof. rewrite <- !cnr_mask_max. apply andb_comm. Qed.

Lemma filter_exists_nonempty {A} (p : A -> bool) (l : list A) x :
  In x l -> p x = true -> List.filter p l <> [].
Proof.
  intros Hx Hp E. rewrite filter_nil_iff in E. specialize (E x Hx). congruence.
Qed.

Lemma filter_twice_commute t1 t2 d :
  boolean_index (cnr_mask t1) (boolean_index (cnr_mask t2) d) =
  boolean_index (cnr_mask t2) (boolean_index (cnr_mask t1) d).
Proof.
  rewrite !boolean_index_twice. f_equal.
  rewrite !filter_filter_andb. apply filter_ext. intros x. apply andb_comm.
Qed.

Lemma apply_cnr_filter_twice_run w df d t1 t2 :
  heap w !! df = Some d ->
  rows (boolean_index (cnr_mask t1) d) <> [] ->
  exists l w',
    (f1 <- apply_cnr_filter df t1 ;; apply_cnr_filter f1 t2) w = (Ok l, w') /\
    heap w' !! l =
      Some (boolean_index (cnr_mask t2) (boolean_index (cnr_mask t1) d)) /\
    heap w' !! df = Some d.
Proof.
  intros H N1.
  assert (Hne : rows d <> []).
  { intros E. apply N1. cbn [boolean_index rows]. now rewrite E. }
  rewrite (bind_run _ _ w _ _ (apply_cnr_filter_ok w df d t1 H Hne)).
  set (l := fresh (dom (heap w))).
  assert (Hl : l <> df) by now apply fresh_not_live with d.
  set (w1 := mkWorld _ _).
  assert (H1 : heap w1 !! l = Some (boolean_index (cnr_mask t1) d))
    by (unfold w1; cbn [heap]; apply lookup_insert_eq).
  assert (Hd : heap w1 !! df = Some d)
    by (unfold w1; cbn [heap]; now rewrite lookup_insert_ne).
  rewrite (apply_cnr_filter_ok w1 l _ t2 H1 N1).
  eexists _, _. split; [reflexivity|]. cbn [heap].
  split; [apply lookup_insert_eq|].
  rewrite lookup_insert_ne; [assumption|]. now apply fresh_not_live with d.
Qed.

(** X5: two filters in a row act as one filter at the larger threshold,
    in either order.  When some row reaches both thresholds, filtering at
    [t1] and then at [t2] returns a table with the same columns and exactly
    the rows whose CNR reaches [max t1 t2], in table order, and so does
    filtering at [t2] and then at [t1]; the table filtered first is left
    as it was. *)
Theorem apply_cnr_filter_compose w df d t1 t2 :
  heap w !! df = Some d ->
  (exists r : Row, In r (rows d) /\ t1 <= CNR r /\ t2 <= CNR r) ->
  exists l12 w12 l21 w21 f,
    (f1 <- apply_cnr_filter df t1 ;; apply_cnr_filter f1 t2) w
      = (Ok l12, w12) /\
    (f2 <- apply_cnr_filter df t2 ;; apply_cnr_filter f2 t1) w
      = (Ok l21, w21) /\
    heap w12 !! l12 = Some f /\ heap w21 !! l21 = Some f /\
    columns f = columns d /\
    rows f = List.filter (cnr_mask (Qmax t1 t2)) (rows d) /\
    heap w12 !! df = Some d /\ heap w21 !! df = Some d.
Proof.
  intros H (r & Hr & H1 & H2).
  assert (N1 : rows (boolean_index (cnr_mask t1) d) <> []).
  { apply (filter_exists_nonempty _ _ r Hr). now apply cnr_mask_spec. }
  assert (N2 : rows (boolean_index (cnr_mask t2) d) <> []).
  { apply (filter_exists_nonempty _ _ r Hr). now apply cnr_mask_spec. }
  destruct (apply_cnr_filter_twice_run w df d t1 t2 H N1)
    as (l12 & w12 & E12 & F12 & D12).
  destruct (apply_cnr_filter_twice_run w df d t2 t1 H N2)
    as (l21 & w21 & E21 & F21 & D21).
  exists l12, w12, l21, w21,
    (boolean_index (cnr_mask t2) (boolean_index (cnr_mask t1) d)).
  split; [assumption|]. split; [assumption|]. split; [assumption|].
  split.
  - rewrite F21. f_equal. apply filter_twice_commute.
  - split; [reflexivity|]. split; [apply filter_twice_rows|]. now split.
Qed.

Lemma apply_cnr_filter_compose_witness :
  let file := [mkRecord 0 10 5 100 1 (-25); mkRecord 1 10 5 200 3 (-18);
               mkRecord 2 20 5 200 7 (-10)] in
  let w := snd (load_lidar_data file start) in
  let df := 0%nat in
  let d := loaded file in
  let t1 := -20 in
  let t2 := -15 in
  exists l12 w12 l21 w21 f,
    (f1 <- apply_cnr_filter df t1 ;; apply_cnr_filter f1 t2) w
      = (Ok l12, w12) /\
    (f2 <- apply_cnr_filter df t2 ;; apply_cnr_filter f2 t1) w
      = (Ok l21, w21) /\
    heap w12 !! l12 = Some f /\ heap w21 !! l21 = Some f /\
    columns f = columns d /\
    rows f = List.filter (cnr_mask (Qmax t1 t2)) (rows d) /\
    heap w12 !! df = Some d /\ heap w21 !! df = Some d.
Proof.
  intros file w df d t1 t2.
  apply (apply_cnr_filter_compose w df d t1 t2).
  - vm_compute. reflexivity.
  - exists (mkRow (mkRecord 2 20 5 200 7 (-10)) None).
    split; [right; right; now left|split; vm_compute; discriminate].
Defined.

(** X6: the table [apply_cnr_filter] returns is a new object.  Its
    location was not in use before the call and differs from the one of
    the input; running [get_data_overview] on the result adds the
    ['AngleComb'] column to the result only, the input table stays as it
    was. *)
Theorem apply_cnr_filter_returns_copy w df d t :
  heap w !! df = Some d -> rows d <> [] ->
  exists l w1 w2,
    apply_cnr_filter df t w = (Ok l, w1) /\
    l <> df /\ heap w !! l = None /\
    heap w1 !! l = Some (boolean_index (cnr_mask t) d) /\
    get_data_overview l w1 = (Ok l, w2) /\
    heap w2 !! df = Some d /\
    heap w2 !! l =
      Some (setitem_AngleComb angle_comb (boolean_index (cnr_mask t) d)).
Proof.
  intros H Hne.
  rewrite (apply_cnr_filter_ok w df d t H Hne).
  set (l := fresh (dom (heap w))).
  assert (Hl : l <> df) by now apply fresh_not_live with d.
  set (w1 := mkWorld _ _).
  assert (H1 : heap w1 !! l = Some (boolean_index (cnr_mask t) d))
    by (unfold w1; cbn [heap]; apply lookup_insert_eq).
  exists l, w1. eexists. split; [reflexivity|]. split; [assumption|].
  split; [apply not_elem_of_dom, is_fresh|]. split; [assumption|].
  split.
  { apply (get_data_overview_run w1 l _ H1).
    rewrite dtype_of_boolean_index. now apply dtype_of_rows. }
  cbn [heap]. split.
  - rewrite lookup_alter_ne by assumption. unfold w1. cbn [heap].
    now rewrite lookup_insert_ne.
  - now rewrite lookup_alter_eq, H1.
Qed.

Lemma apply_cnr_filter_returns_copy_witness :
  let file := [mkRecord 0 10 5 100 1 (-25); mkRecord 1 10 5 200 3 (-18)] in
  let w := snd (load_lidar_data file start) in
  let df := 0%nat in
  let d := loaded file in
  let t := -20 in
  exists l w1 w2,
    apply_cnr_filter df t w = (Ok l, w1) /\
    l <> df /\ heap w !! l = None /\
    heap w1 !! l = Some (boolean_index (cnr_mask t) d) /\
    get_data_overview l w1 = (Ok l, w2) /\
    heap w2 !! df = Some d /\
    heap w2 !! l =
      Some (setitem_AngleComb angle_comb (boolean_index (cnr_mask t) d)).
Proof.
  intros file w df d t.
  apply (apply_cnr_filter_returns_copy w df d t).
  - vm_compute. reflexivity.
  - discriminate.
Defined.

Lemma filter_length_le_all {A} (p : A -> bool) (l : list A) :
  (List.length (List.filter p l) <= List.length l)%nat.
Proof.
  induction l as [|x l IH]; simpl; [lia|]. destruct (p x); simpl; lia.
Qed.

Lemma percent_bounds (n N : nat) :
  (n <= N)%nat -> (1 <= N)%nat ->
  let p := inject_Z (Z.of_nat n) / inject_Z (Z.of_nat N) * 100 in
  0 <= p <= 100 /\ (p == 100 <-> n = N) /\ (p == 0 <-> n = 0%nat).
Proof.
  intros HnN HN. cbv zeta.
  set (a := inject_Z (Z.of_nat n)). set (b := inject_Z (Z.of_nat N)).
  assert (Ha : 0 <= a)
    by (unfold a; change 0 with (inject_Z 0); rewrite <- Zle_Qle; lia).
  assert (Hb : 0 < b)
    by (unfold b; change 0 with (inject_Z 0); rewrite <- Zlt_Qlt; lia).
  assert (Hab : a <= b) by (unfold a, b; rewrite <- Zle_Qle; lia).
  assert (Hq : b * (a / b) == a) by (apply Qmult_div_r; lra).
  assert (Hq0 : 0 <= a / b) by (apply Qle_shift_div_l; [assumption|lra]).
  assert (Hq1 : a / b <= 1) by (apply Qle_shift_div_r; [assumption|lra]).
  set (q := a / b) in *.
  split; [lra|]. split.
  - split.
    + intros E. assert (E1 : q == 1) by lra. rewrite E1 in Hq.
      assert (Eab : a == b) by lra. unfold a, b in Eab.
      rewrite inject_Z_injective in Eab. lia.
    + intros E. assert (Eab : a == b) by (unfold a, b; now rewrite E).
      assert (E1 : q == 1) by nra. lra.
  - split.
    + intros E. assert (E0 : q == 0) by lra. rewrite E0 in Hq.
      assert (Ea : a == inject_Z 0) by (change (inject_Z 0) with 0; lra).
      unfold a in Ea. rewrite inject_Z_injective in Ea. lia.
    + intros E. assert (E0 : a == 0) by (unfold a; now rewrite E).
      assert (Eq0 : q == 0) by nra. lra.
Qed.

(** X7: on a table with rows [apply_cnr_filter] prints two lines and
    returns.  The first line carries the number of rows before and the
    number of rows retained, which is at most the number before; the
    second the retained percentage, between 0 and 100, which is 100
    exactly when no row was dropped and 0 exactly when none was kept. *)
Theorem apply_cnr_filter_report w df d t :
  heap w !! df = Some d -> rows d <> [] ->
  exists l w' n p,
    apply_cnr_filter df t w = (Ok l, w') /\
    console w' = console w ++ [PrintFilterCounts t (len d) n; PrintRetained p] /\
    n = List.length (List.filter (cnr_mask t) (rows d)) /\
    (n <= len d)%nat /\
    0 <= p <= 100 /\ (p == 100 <-> n = len d) /\ (p == 0 <-> n = 0%nat).
Proof.
  intros H Hne. rewrite (apply_cnr_filter_ok w df d t H Hne).
  eexists _, _, _, _. split; [reflexivity|]. cbn [console].
  split; [reflexivity|].
  assert (Hle : (len (boolean_index (cnr_mask t) d) <= len d)%nat)
    by apply filter_length_le_all.
  split; [reflexivity|]. split; [assumption|].
  apply percent_bounds; [assumption|].
  unfold len. destruct (rows d); [congruence|simpl; lia].
Qed.

Lemma apply_cnr_filter_report_witness :
  let file := [mkRecord 0 10 5 100 1 (-25); mkRecord 1 10 5 200 3 (-18)] in
  let w := snd (load_lidar_data file start) in
  let df := 0%nat in
  let d := loaded file in
  let t := -20 in
  exists l w' n p,
    apply_cnr_filter df t w = (Ok l, w') /\
    console w' = console w ++ [PrintFilterCounts t (len d) n; PrintRetained p] /\
    n = List.length (List.filter (cnr_mask t) (rows d)) /\
    (n <= len d)%nat /\
    0 <= p <= 100 /\ (p == 100 <-> n = len d) /\ (p == 0 <-> n = 0%nat).
Proof.
  intros file w df d t.
  apply (apply_cnr_filter_report w df d t).
  - vm_compute. reflexivity.
  - discriminate.
Defined.

(** ** [compare_cnr_filtering] *)

Lemma compare_cnr_filtering_run w df d az el t :
  heap w !! df = Some d ->
  let a := boolean_index (angle_mask az el) d in
  let f := boolean_index (cnr_mask t) a in
  let l1 := fresh (dom (heap w)) in
  let h1 := <[l1 := a]> (heap w) in
  compare_cnr_filtering df az el t w =
    match len a with
    | O => (Ok tt, mkWorld h1 (console w ++ [Warn (NoAngleData az el)]))
    | S _ =>
        (Ok tt,
         mkWorld (<[fresh (dom h1) := f]> h1)
           (console w ++
            [PrintCnrComparison az el t (cnr_stats_of a) (cnr_stats_of f);
             PrintRetained
               (inject_Z (Z.of_nat (len f)) / inject_Z (Z.of_nat (len a))
                * 100);
             SaveFig (cnr_filter_comparison az el
                        (column RWS a) (column RWS f))]))
    end.
Proof.
  intros H. cbv zeta.
  unfold compare_cnr_filtering, bind, deref, alloc, emit, truediv, ret, raise.
  cbn [heap console]. rewrite H, lookup_insert_eq.
  destruct (len (boolean_index (angle_mask az el) d)) eqn:Hn;
    cbn [Nat.eqb]; [reflexivity|].
  cbn [heap console]. rewrite lookup_insert_eq, <- !app_assoc. reflexivity.
Qed.







(** ** [analyze_rws_by_distance] *)


Lemma analyze_rws_by_distance_run w df d az el :
  heap w !! df = Some d ->
  let a := boolean_index (angle_mask az el) d in
  let h1 := <[fresh (dom (heap w)) := a]> (heap w) in
  analyze_rws_by_distance df az el w =
    match len a with
    | O => (Ok None, mkWorld h1 (console w ++ [Warn (NoAngleData az el)]))
    | S _ =>
        (Ok (Some (distance_stats_of a)),
         mkWorld h1
           (console w ++ [SaveFig (rws_distance az el (distance_stats_of a))]))
    end.
Proof.
  intros H. cbv zeta.
  unfold analyze_rws_by_distance, bind, deref, alloc, emit, ret.
  cbn [heap console]. rewrite H, lookup_insert_eq.
  destruct (len (boolean_index (angle_mask az el) d)); reflexivity.
Qed.





(** ** The comparisons across one angle *)

Lemma near_Qeq x y : x == y -> near x y = true.
Proof.
  intros E. apply near_spec. assert (E0 : x - y == 0) by lra.
  rewrite E0. reflexivity.
Qed.

Lemma list_sum_le {A} (f g : A -> nat) (l : list A) :
  (forall x, In x l -> (f x <= g x)%nat) ->
  (list_sum (List.map f l) <= list_sum (List.map g l))%nat.
Proof.
  induction l as [|x l IH]; intros H; simpl; [lia|].
  assert (Hx := H x (or_introl eq_refl)).
  assert (IH' := IH (fun y Hy => H y (or_intror Hy))). lia.
Qed.

Lemma samples_near_In key data v s :
  In (v, s) (samples_near key data) <->
  In v (Series.sorted (Series.unique (column key data))) /\
  s = column RWS (boolean_index (fun r => near (key r) v) data).
Proof.
  unfold samples_near. rewrite in_map_iff. split.
  - intros (k & E & Hk). inversion E; subst. now split.
  - intros (Hk & ->). now exists v.
Qed.

Lemma samples_near_keys key data :
  List.map fst (samples_near key data) =
  Series.sorted (Series.unique (column key data)).
Proof.
  unfold samples_near. rewrite List.map_map. cbn [fst]. apply map_id.
Qed.

(** The boxes of a comparison: one per distinct value, ascending; every
    row of the table is in the box of its own value; a box may also hold
    rows of neighbouring values, so the boxes cover the table without
    splitting it. *)
Lemma samples_near_cover key data :
  StronglySorted Qlt (List.map fst (samples_near key data)) /\
  (forall v s, In (v, s) (samples_near key data) ->
     s <> [] /\
     (exists r : Row, In r (rows data) /\ key r == v) /\
     (forall x, In x s <->
        exists r : Row, In r (rows data) /\
                        Qabs (key r - v) < tolerance /\ RWS r = x)) /\
  (forall r : Row, In r (rows data) ->
     exists v s, In (v, s) (samples_near key data) /\
                 key r == v /\ In (RWS r) s) /\
  (len data <= list_sum (List.map (fun vs => Series.len (snd vs))
                           (samples_near key data)))%nat.
Proof.
  split; [rewrite samples_near_keys; apply keys_ascending|].
  assert (Hmem : forall v x,
            In x (column RWS (boolean_index (fun r => near (key r) v) data))
            <-> exists r : Row, In r (rows data) /\
                                Qabs (key r - v) < tolerance /\ RWS r = x).
  { intros v x. unfold column. rewrite in_map_iff. split.
    - intros (r & E & Hr). apply boolean_index_In in Hr.
      destruct Hr as [Hr Hn]. apply near_spec in Hn. now exists r.
    - intros (r & Hr & Hn & E). exists r. split; [assumption|].
      apply boolean_index_In. split; [assumption|]. now apply near_spec. }
  split; [|split].
  - intros v s Hs. apply samples_near_In in Hs. destruct Hs as [Hv ->].
    destruct (keys_present _ _ Hv) as (y & Hy & E).
    unfold column in Hy. apply in_map_iff in Hy. destruct Hy as (r & <- & Hr).
    assert (Hx : In (RWS r)
                   (column RWS
                      (boolean_index (fun r0 => near (key r0) v) data))).
    { apply Hmem. exists r. split; [assumption|]. split; [|reflexivity].
      apply near_spec, near_Qeq. now symmetry. }
    split; [intros E0; rewrite E0 in Hx; contradiction|].
    split; [exists r; split; [assumption|now symmetry]|]. apply Hmem.
  - intros r Hr.
    destruct (keys_complete (column key data) (key r)) as (k & Hk & E).
    { unfold column. apply in_map_iff. now exists r. }
    eexists k, _. split; [apply samples_near_In; split; eauto|].
    split; [assumption|]. apply Hmem. exists r.
    split; [assumption|]. split; [|reflexivity]. now apply near_spec, near_Qeq.
  - rewrite <- (groupby_sizes key data).
    unfold samples_near, groupby. rewrite !List.map_map. cbn [snd].
    apply list_sum_le. intros k _. unfold Series.len, len, column.
    rewrite length_map. cbn [boolean_index rows].
    apply filter_length_le. intros r _ E. apply near_Qeq.
    now apply Qeq_bool_iff.
Qed.

Lemma compare_azimuths_run w df d el :
  heap w !! df = Some d ->
  let a := boolean_index (elevation_mask el) d in
  compare_azimuths df el w =
    (Ok tt,
     mkWorld (<[fresh (dom (heap w)) := a]> (heap w))
       (console w ++
        [match len a with
         | O => Warn (NoElevationData el)
         | S _ => SaveFig (azimuth_comparison el (samples_near Azimuth a))
         end])).
Proof.
  intros H. cbv zeta. unfold compare_azimuths, bind, deref, alloc, emit.
  cbn [heap console]. rewrite H, lookup_insert_eq.
  destruct (len (boolean_index (elevation_mask el) d)); reflexivity.
Qed.

Lemma compare_elevations_run w df d az :
  heap w !! df = Some d ->
  let a := boolean_index (azimuth_mask az) d in
  let data_list := samples_near Elevation a in
  compare_elevations df az w =
    (Ok tt,
     mkWorld (<[fresh (dom (heap w)) := a]> (heap w))
       (console w ++
        [match len a with
         | O => Warn (NoAzimuthData az)
         | S _ =>
             SaveFig (elevation_comparison az data_list
                        (List.map (fun vs => Series.mean (snd vs)) data_list)
                        (List.map (fun vs => Series.std (snd vs)) data_list))
         end])).
Proof.
  intros H. cbv zeta. unfold compare_elevations, bind, deref, alloc, emit.
  cbn [heap console]. rewrite H, lookup_insert_eq.
  destruct (len (boolean_index (azimuth_mask az) d)); reflexivity.
Qed.



(** The boxes of a comparison can overlap: with azimuths 10 and 10.05 at
    one elevation each of the two boxes holds both speeds. *)
Example compare_azimuths_boxes_overlap :
  samples_near Azimuth
    (loaded [mkRecord 0 10 5 100 1 (-25);
             mkRecord 1 (1005 # 100) 5 200 3 (-18)]) =
  [(10, [1; 3]); (1005 # 100, [1; 3])].
Proof. reflexivity. Qed.



(** ** The heat maps *)

Lemma plot_azimuth_distance_heatmap_run w df d el :
  heap w !! df = Some d ->
  let a := boolean_index (elevation_mask el) d in
  plot_azimuth_distance_heatmap df el w =
    (Ok tt,
     mkWorld (<[fresh (dom (heap w)) := a]> (heap w))
       (console w ++
        [match len a with
         | O => Warn (NoElevationData el)
         | S _ => SaveFig (heatmap_azimuth_distance el
                             (pivot_table Distance Azimuth a))
         end])).
Proof.
  intros H. cbv zeta.
  unfold plot_azimuth_distance_heatmap, bind, deref, alloc, emit.
  cbn [heap console]. rewrite H, lookup_insert_eq.
  destruct (len (boolean_index (elevation_mask el) d)); reflexivity.
Qed.

Lemma plot_elevation_distance_heatmap_run w df d az :
  heap w !! df = Some d ->
  let a := boolean_index (azimuth_mask az) d in
  plot_elevation_distance_heatmap df az w =
    (Ok tt,
     mkWorld (<[fresh (dom (heap w)) := a]> (heap w))
       (console w ++
        [match len a with
         | O => Warn (NoAzimuthData az)
         | S _ => SaveFig (heatmap_elevation_distance az
                             (pivot_table Distance Elevation a))
         end])).
Proof.
  intros H. cbv zeta.
  unfold plot_elevation_distance_heatmap, bind, deref, alloc, emit.
  cbn [heap console]. rewrite H, lookup_insert_eq.
  destruct (len (boolean_index (azimuth_mask az) d)); reflexivity.
Qed.






(** ** Running the overview again *)

Lemma setitem_AngleComb_again d :
  setitem_AngleComb angle_comb (setitem_AngleComb angle_comb d) =
  setitem_AngleComb angle_comb d.
Proof.
  destruct (setitem_AngleComb_columns angle_comb d) as [Hin _].
  unfold setitem_AngleComb at 1.
  replace (existsb (String.eqb "AngleComb")
             (columns (setitem_AngleComb angle_comb d))) with true.
  - rewrite dtype_of_setitem_AngleComb.
    unfold setitem_AngleComb. cbn [rows columns]. f_equal.
    rewrite List.map_map. reflexivity.
  - symmetry. apply existsb_exists. exists "AngleComb"%string.
    split; [assumption|]. apply String.eqb_refl.
Qed.

Lemma overview_of_setitem v d :
  overview_of (setitem_AngleComb v d) = overview_of d.
Proof.
  unfold overview_of. rewrite setitem_AngleComb_len.
  rewrite !column_setitem_AngleComb_all.
  unfold setitem_AngleComb. cbn [rows]. now rewrite List.map_map.
Qed.

Lemma length_distinct {A} (eqb : A -> A -> bool) (l : list A) :
  (List.length (distinct eqb l) <= List.length l)%nat.
Proof.
  induction l as [|x l IH]; simpl; [lia|].
  assert (H := filter_length_le_all (fun y => negb (eqb x y)) (distinct eqb l)).
  lia.
Qed.

(** X14: on a table with numeric columns (any table but the one read
    from a file without lines), running [get_data_overview] a second time
    on the same table prints the same two lines again and leaves the table
    as the first run left it: the ['AngleComb'] column is replaced, not
    added once more.  The overview is computed from the loaded columns
    only, the number of rows it prints is the number of rows of the table,
    and the number of angle combinations is at most that. *)
Theorem get_data_overview_twice w df d :
  heap w !! df = Some d -> dtype_of d = float64 ->
  exists w1 w2 o n,
    get_data_overview df w = (Ok df, w1) /\
    get_data_overview df w1 = (Ok df, w2) /\
    console w1 = console w ++ [PrintOverview o; PrintAngleCombinations n] /\
    console w2 = console w1 ++ [PrintOverview o; PrintAngleCombinations n] /\
    heap w2 = heap w1 /\
    heap w1 !! df = Some (setitem_AngleComb angle_comb d) /\
    ov_rows o = len d /\ (n <= len d)%nat /\
    (~ In "AngleComb"%string (columns d) ->
     columns (setitem_AngleComb angle_comb d) =
       columns d ++ ["AngleComb"%string]).
Proof.
  intros H Hd.
  assert (E1 := get_data_overview_run w df d H Hd).
  set (w1 := mkWorld _ _) in E1.
  assert (H1 : heap w1 !! df = Some (setitem_AngleComb angle_comb d))
    by (unfold w1; cbn [heap]; now rewrite lookup_alter_eq, H).
  assert (E2 := get_data_overview_run w1 df _ H1
                  (eq_trans (dtype_of_setitem_AngleComb _ _) Hd)).
  rewrite setitem_AngleComb_again, overview_of_setitem in E2.
  eexists _, _, _, _. split; [exact E1|]. split; [exact E2|].
  split; [unfold w1; cbn [console]; now rewrite <- app_assoc|].
  split; [cbn [console]; now rewrite <- app_assoc|].
  split.
  - cbn [heap]. apply map_eq. intros l.
    destruct (decide (l = df)) as [->|Hl].
    + rewrite lookup_alter_eq, H1. cbn. now rewrite setitem_AngleComb_again.
    + now rewrite lookup_alter_ne by congruence.
  - split; [assumption|]. split; [reflexivity|]. split.
    + rewrite <- (setitem_AngleComb_len angle_comb d). unfold len.
      rewrite <- (length_map AngleComb). apply length_distinct.
    + intros Hnot. unfold setitem_AngleComb. cbn [columns].
      destruct (existsb (String.eqb "AngleComb") (columns d)) eqn:E;
        [|reflexivity].
      apply existsb_exists in E. destruct E as (c & Hc & E).
      apply String.eqb_eq in E. subst. contradiction.
Qed.

Lemma get_data_overview_twice_witness :
  let file := [mkRecord 0 10 5 100 1 (-25); mkRecord 1 10 7 200 3 (-18)] in
  let w := snd (load_lidar_data file start) in
  let df := 0%nat in
  let d := loaded file in
  exists w1 w2 o n,
    get_data_overview df w = (Ok df, w1) /\
    get_data_overview df w1 = (Ok df, w2) /\
    console w1 = console w ++ [PrintOverview o; PrintAngleCombinations n] /\
    console w2 = console w1 ++ [PrintOverview o; PrintAngleCombinations n] /\
    heap w2 = heap w1 /\
    heap w1 !! df = Some (setitem_AngleComb angle_comb d) /\
    ov_rows o = len d /\ (n <= len d)%nat /\
    (~ In "AngleComb"%string (columns d) ->
     columns (setitem_AngleComb angle_comb d) =
       columns d ++ ["AngleComb"%string]).
Proof.
  intros file w df d.
  apply (get_data_overview_twice w df d).
  - vm_compute. reflexivity.
  - reflexivity.
Defined.

(** ** The radius of the wind rose *)

Lemma abs_sum_nonneg s : 0 <= Series.sum (Series.abs s).
Proof.
  induction s as [|x s IH]; [discriminate|].
  unfold Series.sum, Series.abs in *. cbn [List.map fold_right].
  assert (H := Qabs_nonneg x). lra.
Qed.

Lemma mean_value x s :
  Series.mean (x :: s) =
  Some (Qred (Series.sum (x :: s)
              / inject_Z (Z.of_nat (Series.len (x :: s))))).
Proof. reflexivity. Qed.

Lemma abs_mean_nonneg s r : Series.mean (Series.abs s) = Some r -> 0 <= r.
Proof.
  destruct s as [|x s]; [discriminate|]. intros Er.
  assert (Hn := len_positive (Qabs x) (Series.abs s)).
  assert (B := abs_sum_nonneg (x :: s)).
  change (Series.abs (x :: s)) with (Qabs x :: Series.abs s) in *.
  assert (Hr : r == Series.sum (Qabs x :: Series.abs s)
                    / inject_Z (Z.of_nat
                                  (Series.len (Qabs x :: Series.abs s)))).
  { rewrite mean_value in Er. injection Er as <-. exact (Qred_correct _). }
  rewrite Hr. clear Er Hr.
  set (n := inject_Z (Z.of_nat (Series.len (Qabs x :: Series.abs s)))) in *.
  set (T := Series.sum (Qabs x :: Series.abs s)) in *.
  clearbody n T.
  apply Qle_shift_div_l; [assumption|]. lra.
Qed.

(** X15: on a table without missing speeds every bar of the wind rose
    has a radius that is a number and is not negative, and the mean speed
    of its azimuth is a number too. *)
Theorem wind_rose_radius (d : DataFrame) :
  forall s, In s (azimuth_stats_of d) ->
    exists m r, az_mean s = Some m /\ az_abs_mean s = Some r /\ 0 <= r.
Proof.
  intros s Hs. apply azimuth_stats_In in Hs. destruct Hs as (k & Hk & ->).
  cbn [az_mean az_abs_mean].
  destruct (keys_present _ _ Hk) as (y & Hy & E).
  unfold column in Hy. apply in_map_iff in Hy. destruct Hy as (r & <- & Hr).
  assert (Hx : In (RWS r)
                 (column RWS
                    (boolean_index (fun r0 : Row => Qeq_bool (Azimuth r0) k) d))).
  { unfold column. apply in_map_iff. exists r. split; [reflexivity|].
    apply boolean_index_In. split; [assumption|].
    apply Qeq_bool_iff. now symmetry. }
  destruct (column RWS _) as [|x s'] eqn:Ec; [contradiction|].
  destruct (Series.mean (x :: s')) as [m|] eqn:Em; [|discriminate].
  destruct (Series.mean (Series.abs (x :: s'))) as [rad|] eqn:Er;
    [|discriminate].
  exists m, rad. split; [reflexivity|]. split; [reflexivity|].
  now apply (abs_mean_nonneg (x :: s')).
Qed.

Lemma wind_rose_radius_witness :
  let d := loaded [mkRecord 0 10 5 100 1 (-25); mkRecord 1 10 7 200 (-3) (-18)] in
  let s := mkAzimuthStat 10 (Some (-(1))) (Some 2) in
  exists m r, az_mean s = Some m /\ az_abs_mean s = Some r /\ 0 <= r.
Proof.
  intros d s. apply (wind_rose_radius d s).
  vm_compute. now left.
Defined.

(** ** The run of [main], stage by stage *)

Lemma bind_assoc {A B C} (m : M A) (f : A -> M B) (g : B -> M C) w :
  bind (bind m f) g w = bind m (fun a => bind (f a) g) w.
Proof.
  unfold bind. destruct (m w) as [[a|e] w1]; reflexivity.
Qed.

Lemma len_cons_rows a r rs : rows a = r :: rs -> len a = S (List.length rs).
Proof. unfold len. now intros ->. Qed.

Lemma single_angle_statistics_spec w df d az el :
  heap w !! df = Some d ->
  let sel := boolean_index (angle_mask az el) d in
  exists w',
    single_angle_statistics df az el w =
      (Ok match rows sel with
          | [] => None
          | _ :: _ => Some (angle_stats_of (column RWS sel))
          end, w') /\
    heap w' !! df = Some d /\
    console w' =
      console w ++
      match rows sel with
      | [] => [Warn (NoAngleData az el)]
      | _ :: _ => []
      end.
Proof.
  intros H. cbv zeta. rewrite (single_angle_statistics_run w df d az el H).
  unfold column.
  destruct (rows (boolean_index (angle_mask az el) d)) as [|r rs];
    cbn [List.map]; eexists; (split; [reflexivity|]);
    (split; [exact H|]); cbn [console]; [reflexivity|now rewrite app_nil_r].
Qed.

Lemma analyze_rws_by_distance_spec w df d az el :
  heap w !! df = Some d ->
  let sel := boolean_index (angle_mask az el) d in
  exists res w',
    analyze_rws_by_distance df az el w = (Ok res, w') /\
    heap w' !! df = Some d /\
    console w' =
      console w ++
      match rows sel with
      | [] => [Warn (NoAngleData az el)]
      | _ :: _ => [SaveFig (rws_distance az el (distance_stats_of sel))]
      end.
Proof.
  intros H. cbv zeta.
  assert (K := analyze_rws_by_distance_keeps df az el w df d H).
  rewrite (analyze_rws_by_distance_run w df d az el H) in *.
  unfold len in *.
  destruct (rows (boolean_index (angle_mask az el) d)) as [|r rs];
    cbn [List.length] in *; eexists _, _; (split; [reflexivity|]);
    (split; [exact K|reflexivity]).
Qed.

Lemma plot_rws_distribution_spec w df d az el :
  heap w !! df = Some d ->
  let sel := boolean_index (angle_mask az el) d in
  exists w',
    plot_rws_distribution df az el w = (Ok tt, w') /\
    heap w' !! df = Some d /\
    console w' =
      console w ++
      match rows sel with
      | [] => [Warn (NoAngleData az el)]
      | _ :: _ =>
          [SaveFig (rws_distribution az el (column RWS sel)
                      (List.map (Series.quantile (column RWS sel))
                         percent_grid))]
      end.
Proof.
  intros H. cbv zeta. rewrite (plot_rws_distribution_run w df d az el H).
  eexists. split; [reflexivity|]. split; [exact H|]. cbn [console].
  unfold column.
  destruct (rows (boolean_index (angle_mask az el) d)); reflexivity.
Qed.

Lemma compare_cnr_filtering_spec w df d az el t :
  heap w !! df = Some d ->
  let sel := boolean_index (angle_mask az el) d in
  let f := boolean_index (cnr_mask t) sel in
  exists w',
    compare_cnr_filtering df az el t w = (Ok tt, w') /\
    heap w' !! df = Some d /\
    console w' =
      console w ++
      match rows sel with
      | [] => [Warn (NoAngleData az el)]
      | _ :: _ =>
          [PrintCnrComparison az el t (cnr_stats_of sel) (cnr_stats_of f);
           PrintRetained
             (inject_Z (Z.of_nat (len f)) / inject_Z (Z.of_nat (len sel))
              * 100);
           SaveFig (cnr_filter_comparison az el
                      (column RWS sel) (column RWS f))]
      end.
Proof.
  intros H. cbv zeta.
  assert (K := compare_cnr_filtering_keeps df az el t w df d H).
  rewrite (compare_cnr_filtering_run w df d az el t H) in *.
  destruct (len (boolean_index (angle_mask az el) d)) eqn:Hn.
  - apply len_zero_rows in Hn. rewrite Hn.
    eexists. split; [reflexivity|]. split; [exact K|reflexivity].
  - destruct (rows (boolean_index (angle_mask az el) d)) as [|r rs] eqn:Er;
      [apply len_zero_rows in Er; congruence|].
    eexists. split; [reflexivity|]. split; [exact K|reflexivity].
Qed.

Lemma compare_azimuths_spec w df d el :
  heap w !! df = Some d ->
  (exists r : Row, In r (rows d) /\ elevation_mask el r = true) ->
  exists w',
    compare_azimuths df el w = (Ok tt, w') /\
    heap w' !! df = Some d /\
    console w' =
      console w ++
      [SaveFig (azimuth_comparison el
                  (samples_near Azimuth
                     (boolean_index (elevation_mask el) d)))].
Proof.
  intros H (r & Hr & Hm).
  assert (K := compare_azimuths_keeps df el w df d H).
  rewrite (compare_azimuths_run w df d el H) in *.
  eexists. split; [reflexivity|]. split; [exact K|]. cbn [console].
  destruct (len _) eqn:Hn; [|reflexivity].
  apply len_zero_rows in Hn. exfalso.
  apply (filter_exists_nonempty _ _ r Hr Hm). exact Hn.
Qed.

Lemma compare_elevations_spec w df d az :
  heap w !! df = Some d ->
  (exists r : Row, In r (rows d) /\ azimuth_mask az r = true) ->
  let boxes := samples_near Elevation (boolean_index (azimuth_mask az) d) in
  exists w',
    compare_elevations df az w = (Ok tt, w') /\
    heap w' !! df = Some d /\
    console w' =
      console w ++
      [SaveFig (elevation_comparison az boxes
                  (List.map (fun vs => Series.mean (snd vs)) boxes)
                  (List.map (fun vs => Series.std (snd vs)) boxes))].
Proof.
  intros H (r & Hr & Hm). cbv zeta.
  assert (K := compare_elevations_keeps df az w df d H).
  rewrite (compare_elevations_run w df d az H) in *.
  eexists. split; [reflexivity|]. split; [exact K|]. cbn [console].
  destruct (len _) eqn:Hn; [|reflexivity].
  apply len_zero_rows in Hn. exfalso.
  apply (filter_exists_nonempty _ _ r Hr Hm). exact Hn.
Qed.

Lemma plot_azimuth_distance_heatmap_spec w df d el :
  heap w !! df = Some d ->
  (exists r : Row, In r (rows d) /\ elevation_mask el r = true) ->
  exists w',
    plot_azimuth_distance_heatmap df el w = (Ok tt, w') /\
    heap w' !! df = Some d /\
    console w' =
      console w ++
      [SaveFig (heatmap_azimuth_distance el
                  (pivot_table Distance Azimuth
                     (boolean_index (elevation_mask el) d)))].
Proof.
  intros H (r & Hr & Hm).
  assert (K := plot_azimuth_distance_heatmap_keeps df el w df d H).
  rewrite (plot_azimuth_distance_heatmap_run w df d el H) in *.
  eexists. split; [reflexivity|]. split; [exact K|]. cbn [console].
  destruct (len _) eqn:Hn; [|reflexivity].
  apply len_zero_rows in Hn. exfalso.
  apply (filter_exists_nonempty _ _ r Hr Hm). exact Hn.
Qed.

Lemma plot_elevation_distance_heatmap_spec w df d az :
  heap w !! df = Some d ->
  (exists r : Row, In r (rows d) /\ azimuth_mask az r = true) ->
  exists w',
    plot_elevation_distance_heatmap df az w = (Ok tt, w') /\
    heap w' !! df = Some d /\
    console w' =
      console w ++
      [SaveFig (heatmap_elevation_distance az
                  (pivot_table Distance Elevation
                     (boolean_index (azimuth_mask az) d)))].
Proof.
  intros H (r & Hr & Hm).
  assert (K := plot_elevation_distance_heatmap_keeps df az w df d H).
  rewrite (plot_elevation_distance_heatmap_run w df d az H) in *.
  eexists. split; [reflexivity|]. split; [exact K|]. cbn [console].
  destruct (len _) eqn:Hn; [|reflexivity].
  apply len_zero_rows in Hn. exfalso.
  apply (filter_exists_nonempty _ _ r Hr Hm). exact Hn.
Qed.

(** The least key of a table with rows: it heads the ascending list of
    distinct values, some row carries it, and no row has a smaller one. *)
Lemma least_key key d r0 rs :
  rows d = r0 :: rs ->
  exists k ks,
    Series.sorted (Series.unique (column key d)) = k :: ks /\
    (exists r : Row, In r (rows d) /\ key r == k) /\
    (forall r : Row, In r (rows d) -> k <= key r).
Proof.
  intros Er.
  destruct (keys_complete (column key d) (key r0)) as (k0 & Hk0 & _).
  { unfold column. rewrite Er. now left. }
  destruct (Series.sorted (Series.unique (column key d))) as [|k ks] eqn:E;
    [contradiction|].
  exists k, ks. split; [reflexivity|]. split.
  - destruct (keys_present (column key d) k) as (y & Hy & Ey).
    { rewrite E. now left. }
    unfold column in Hy. apply in_map_iff in Hy. destruct Hy as (r & <- & Hr).
    exists r. split; [assumption|now symmetry].
  - intros r Hr.
    destruct (keys_complete (column key d) (key r)) as (k' & Hk' & Ek').
    { unfold column. apply in_map_iff. now exists r. }
    rewrite Ek'. rewrite E in Hk'.
    assert (Hs := sorted_ascending (Series.unique (column key d))).
    rewrite E in Hs. inversion Hs as [|? ? _ Hall]; subst.
    destruct Hk' as [<-|Hk']; [apply Qle_refl|].
    revert k' Hk' Ek'. intros k' Hk' _. revert k' Hk'.
    now apply List.Forall_forall.
Qed.

(** What [main] prints and saves, in order, on a file with lines. *)
Lemma main_output (file : list LidarRecord) :
  file <> [] ->
  let d1 := setitem_AngleComb angle_comb (loaded file) in
  exists a azs e els w',
    Series.sorted (Series.unique (column Azimuth d1)) = a :: azs /\
    Series.sorted (Series.unique (column Elevation d1)) = e :: els /\
    main file start = (Ok tt, w') /\
    heap w' !! fresh (dom (heap start)) = Some d1 /\
    let sel := boolean_index (angle_mask a e) d1 in
    let f := boolean_index (cnr_mask cnr_threshold) sel in
    let boxes := samples_near Elevation (boolean_index (azimuth_mask a) d1) in
    console w' =
      [PrintLoaded (List.length file);
       PrintOverview (overview_of (loaded file));
       PrintAngleCombinations
         (List.length
            (distinct angle_comb_eqb (List.map AngleComb (rows d1))));
       PrintUniqueAngles (S (List.length azs)) (S (List.length els))] ++
      match rows sel with
      | [] =>
          [Warn (NoAngleData a e); PrintAngleStatistics a e None;
           Warn (NoAngleData a e); Warn (NoAngleData a e);
           Warn (NoAngleData a e)]
      | _ :: _ =>
          [PrintAngleStatistics a e (Some (angle_stats_of (column RWS sel)));
           SaveFig (rws_distance a e (distance_stats_of sel));
           SaveFig (rws_distribution a e (column RWS sel)
                      (List.map (Series.quantile (column RWS sel))
                         percent_grid));
           PrintCnrComparison a e cnr_threshold
             (cnr_stats_of sel) (cnr_stats_of f);
           PrintRetained
             (inject_Z (Z.of_nat (len f)) / inject_Z (Z.of_nat (len sel))
              * 100);
           SaveFig (cnr_filter_comparison a e
                      (column RWS sel) (column RWS f))]
      end ++
      [SaveFig (azimuth_comparison e
                  (samples_near Azimuth
                     (boolean_index (elevation_mask e) d1)));
       SaveFig (elevation_comparison a boxes
                  (List.map (fun vs => Series.mean (snd vs)) boxes)
                  (List.map (fun vs => Series.std (snd vs)) boxes));
       SaveFig (heatmap_azimuth_distance e
                  (pivot_table Distance Azimuth
                     (boolean_index (elevation_mask e) d1)));
       SaveFig (heatmap_elevation_distance a
                  (pivot_table Distance Elevation
                     (boolean_index (azimuth_mask a) d1)));
       SaveFig (wind_rose
                  (List.map (fun s => (az_azimuth s, az_abs_mean s))
                     (azimuth_stats_of d1)))].
Proof.
  intros Hne. cbv zeta. unfold main.
  set (l0 := fresh (dom (heap start))).
  set (d1 := setitem_AngleComb angle_comb (loaded file)).
  assert (Hrows : exists r0 rs, rows d1 = r0 :: rs).
  { unfold d1, setitem_AngleComb, loaded. cbn [rows].
    destruct file as [|x xs]; [congruence|]. cbn [List.map]. eauto. }
  destruct Hrows as (r0 & rs & Er).
  destruct (least_key Azimuth d1 r0 rs Er)
    as (a & azs & Ea & (ra & Hra & Era) & _).
  destruct (least_key Elevation d1 r0 rs Er)
    as (e & els & Ee & (re & Hre & Ere) & _).
  assert (Ma : exists r : Row, In r (rows d1) /\ azimuth_mask a r = true)
    by (exists ra; split; [assumption|now apply near_Qeq]).
  assert (Me : exists r : Row, In r (rows d1) /\ elevation_mask e r = true)
    by (exists re; split; [assumption|now apply near_Qeq]).
  exists a, azs, e, els.
  rewrite (bind_run _ _ start l0
             (mkWorld (<[l0 := loaded file]> (heap start))
                (console start ++ [PrintLoaded (List.length file)])))
    by reflexivity.
  erewrite bind_run;
    [|apply get_data_overview_run with (d := loaded file);
      [cbn [heap]; apply lookup_insert_eq|now apply dtype_of_loaded]].
  match goal with
  | |- context [bind (deref l0) _ ?w] =>
      assert (Hl : heap w !! l0 = Some d1)
        by (cbn [heap]; now rewrite lookup_alter_eq, lookup_insert_eq);
      rewrite (bind_run (deref l0) _ w d1 w)
        by (unfold deref; now rewrite Hl)
  end.
  erewrite bind_run by reflexivity.
  fold d1. rewrite Ea, Ee. cbn [List.length].
  match goal with
  | |- context [bind _ _ ?w0] =>
      assert (Hl0 : heap w0 !! l0 = Some d1) by exact Hl;
      assert (Hc0 : console w0 =
                [PrintLoaded (List.length file);
                 PrintOverview (overview_of (loaded file));
                 PrintAngleCombinations
                   (List.length
                      (distinct angle_comb_eqb
                         (List.map AngleComb (rows d1))));
                 PrintUniqueAngles (S (List.length azs))
                   (S (List.length els))]) by reflexivity;
      generalize dependent w0
  end.
  intros w0 Hl0 Hc0. clear Hl.
  destruct (single_angle_statistics_spec w0 l0 d1 a e Hl0)
    as (w1 & E1 & Hl1 & Hc1).
  rewrite bind_assoc, (bind_run _ _ _ _ _ E1).
  rewrite bind_assoc. unfold print_angle_statistics at 1.
  erewrite bind_run by reflexivity.
  set (w2 := mkWorld (heap w1) _).
  assert (Hl2 : heap w2 !! l0 = Some d1) by exact Hl1.
  destruct (analyze_rws_by_distance_spec w2 l0 d1 a e Hl2)
    as (res & w3 & E3 & Hl3 & Hc3).
  rewrite bind_assoc, (bind_run _ _ _ _ _ E3).
  destruct (plot_rws_distribution_spec w3 l0 d1 a e Hl3)
    as (w4 & E4 & Hl4 & Hc4).
  rewrite bind_assoc, (bind_run _ _ _ _ _ E4).
  destruct (compare_cnr_filtering_spec w4 l0 d1 a e cnr_threshold Hl4)
    as (w5 & E5 & Hl5 & Hc5).
  rewrite (bind_run _ _ _ _ _ E5).
  destruct (compare_azimuths_spec w5 l0 d1 e Hl5 Me)
    as (w6 & E6 & Hl6 & Hc6).
  rewrite (bind_run _ _ _ _ _ E6).
  destruct (compare_elevations_spec w6 l0 d1 a Hl6 Ma)
    as (w7 & E7 & Hl7 & Hc7).
  rewrite (bind_run _ _ _ _ _ E7).
  destruct (plot_azimuth_distance_heatmap_spec w7 l0 d1 e Hl7 Me)
    as (w8 & E8 & Hl8 & Hc8).
  rewrite (bind_run _ _ _ _ _ E8).
  destruct (plot_elevation_distance_heatmap_spec w8 l0 d1 a Hl8 Ma)
    as (w9 & E9 & Hl9 & Hc9).
  rewrite (bind_run _ _ _ _ _ E9).
  rewrite (plot_wind_rose_run w9 l0 d1 Hl9).
  eexists. split; [reflexivity|]. split; [reflexivity|].
  split; [reflexivity|]. cbn [heap console]. split; [assumption|].
  rewrite Hc9, Hc8, Hc7, Hc6, Hc5, Hc4, Hc3. unfold w2. cbn [console].
  rewrite Hc1, Hc0.
  destruct (rows (boolean_index (angle_mask a e) d1)); reflexivity.
Qed.

Lemma rows_overviewed file :
  rows (setitem_AngleComb angle_comb (loaded file)) =
  List.map (fun rec => mkRow rec (Some (angle_comb (mkRow rec None)))) file.
Proof.
  unfold setitem_AngleComb, loaded. cbn [rows]. now rewrite List.map_map.
Qed.

Lemma In_overviewed file (r : Row) :
  In r (rows (setitem_AngleComb angle_comb (loaded file))) ->
  In (fields r) file.
Proof.
  rewrite rows_overviewed, in_map_iff. intros (rec & <- & H). exact H.
Qed.

Lemma overviewed_In file rec :
  In rec file ->
  exists r : Row,
    In r (rows (setitem_AngleComb angle_comb (loaded file))) /\
    fields r = rec.
Proof.
  intros H. exists (mkRow rec (Some (angle_comb (mkRow rec None)))).
  split; [|reflexivity].
  rewrite rows_overviewed, in_map_iff. exists rec. now split.
Qed.

(** The least value of a column of the file, as [main] picks it. *)
Lemma least_of_file (key : LidarRecord -> Q) file k ks :
  Series.sorted
    (Series.unique
       (column key (setitem_AngleComb angle_comb (loaded file)))) = k :: ks ->
  (exists rec, In rec file /\ key rec == k) /\
  (forall rec, In rec file -> k <= key rec).
Proof.
  intros E.
  set (d1 := setitem_AngleComb angle_comb (loaded file)) in *.
  assert (Hk : In k (Series.sorted (Series.unique (column key d1))))
    by (rewrite E; now left).
  destruct (keys_present _ _ Hk) as (y & Hy & Ey).
  unfold column in Hy. apply in_map_iff in Hy. destruct Hy as (r & <- & Hr).
  split.
  - exists (fields r). split; [now apply In_overviewed|now symmetry].
  - intros rec Hrec. destruct (overviewed_In file rec Hrec) as (r' & Hr' & <-).
    fold d1 in Hr'. destruct (rows d1) as [|r0 rs] eqn:Er; [contradiction|].
    destruct (least_key key d1 r0 rs Er) as (k' & ks' & E' & _ & Hle).
    rewrite E in E'. injection E' as <- <-. apply Hle. now rewrite Er.
Qed.

(** X16: on a file with at least one line [main] ends normally.  It never
    prints the warning of a comparison over one angle: the last five
    things it does are to save the azimuth comparison at the least
    elevation of the file, the elevation comparison at the least azimuth,
    the two heat maps at these angles and the wind rose. *)
Theorem main_saves_five_figures (file : list LidarRecord) :
  file <> [] ->
  let d1 := setitem_AngleComb angle_comb (loaded file) in
  exists w' c a e,
    main file start = (Ok tt, w') /\
    (exists rec, In rec file /\ Azimuth rec == a) /\
    (forall rec, In rec file -> a <= Azimuth rec) /\
    (exists rec, In rec file /\ Elevation rec == e) /\
    (forall rec, In rec file -> e <= Elevation rec) /\
    (let boxes := samples_near Elevation (boolean_index (azimuth_mask a) d1) in
     console w' =
       c ++
       [SaveFig (azimuth_comparison e
                   (samples_near Azimuth
                      (boolean_index (elevation_mask e) d1)));
        SaveFig (elevation_comparison a boxes
                   (List.map (fun vs => Series.mean (snd vs)) boxes)
                   (List.map (fun vs => Series.std (snd vs)) boxes));
        SaveFig (heatmap_azimuth_distance e
                   (pivot_table Distance Azimuth
                      (boolean_index (elevation_mask e) d1)));
        SaveFig (heatmap_elevation_distance a
                   (pivot_table Distance Elevation
                      (boolean_index (azimuth_mask a) d1)));
        SaveFig (wind_rose
                   (List.map (fun s => (az_azimuth s, az_abs_mean s))
                      (azimuth_stats_of (loaded file))))]) /\
    (forall x, ~ In (Warn (NoElevationData x)) (console w')) /\
    (forall x, ~ In (Warn (NoAzimuthData x)) (console w')).
Proof.
  intros Hne. cbv zeta.
  destruct (main_output file Hne) as (a & azs & e & els & w' & Ea & Ee & Em & _ & Hc).
  cbv zeta in Hc.
  destruct (least_of_file Azimuth file a azs Ea) as [A1 A2].
  destruct (least_of_file Elevation file e els Ee) as [B1 B2].
  eexists w', _, a, e. split; [exact Em|].
  split; [exact A1|]. split; [exact A2|]. split; [exact B1|].
  split; [exact B2|].
  rewrite <- (azimuth_stats_setitem_AngleComb angle_comb (loaded file)).
  split; [rewrite Hc, app_assoc; reflexivity|].
  rewrite Hc.
  destruct (rows (boolean_index (angle_mask a e) _));
    split; intros x Hx; cbn [app In] in Hx;
    repeat (destruct Hx as [Hx|Hx]; [discriminate|]); exact Hx.
Qed.

Lemma main_saves_five_figures_witness :
  let file := [mkRecord 0 10 7 100 1 (-25); mkRecord 1 20 5 200 3 (-18)] in
  let d1 := setitem_AngleComb angle_comb (loaded file) in
  exists w' c a e,
    main file start = (Ok tt, w') /\
    (exists rec, In rec file /\ Azimuth rec == a) /\
    (forall rec, In rec file -> a <= Azimuth rec) /\
    (exists rec, In rec file /\ Elevation rec == e) /\
    (forall rec, In rec file -> e <= Elevation rec) /\
    (let boxes := samples_near Elevation (boolean_index (azimuth_mask a) d1) in
     console w' =
       c ++
       [SaveFig (azimuth_comparison e
                   (samples_near Azimuth
                      (boolean_index (elevation_mask e) d1)));
        SaveFig (elevation_comparison a boxes
                   (List.map (fun vs => Series.mean (snd vs)) boxes)
                   (List.map (fun vs => Series.std (snd vs)) boxes));
        SaveFig (heatmap_azimuth_distance e
                   (pivot_table Distance Azimuth
                      (boolean_index (elevation_mask e) d1)));
        SaveFig (heatmap_elevation_distance a
                   (pivot_table Distance Elevation
                      (boolean_index (azimuth_mask a) d1)));
        SaveFig (wind_rose
                   (List.map (fun s => (az_azimuth s, az_abs_mean s))
                      (azimuth_stats_of (loaded file))))]) /\
    (forall x, ~ In (Warn (NoElevationData x)) (console w')) /\
    (forall x, ~ In (Warn (NoAzimuthData x)) (console w')).
Proof.
  intros file. apply (main_saves_five_figures file). discriminate.
Defined.



(** ** Boxes and single directions *)

Lemma angle_selection_two_steps az el d :
  boolean_index (fun r : Row => near (Azimuth r) az)
    (boolean_index (elevation_mask el) d) =
  boolean_index (angle_mask az el) d.
Proof.
  rewrite boolean_index_twice. unfold boolean_index. f_equal.
  rewrite filter_filter_andb. apply filter_ext. intros r.
  unfold angle_mask, azimuth_mask. apply andb_comm.
Qed.

(** X18: every box of [compare_azimuths] is the sample that
    [single_angle_statistics] summarises for the azimuth of the box and
    the elevation of the comparison: selecting by elevation and then by
    azimuth is selecting by both.  In particular the function returns
    statistics, not [None], for each of these directions. *)
Theorem compare_azimuths_box_statistics w df d el v s :
  heap w !! df = Some d ->
  In (v, s) (samples_near Azimuth (boolean_index (elevation_mask el) d)) ->
  s = column RWS (boolean_index (angle_mask v el) d) /\
  single_angle_statistics df v el w = (Ok (Some (angle_stats_of s)), w).
Proof.
  intros H Hs.
  destruct (samples_near_cover Azimuth (boolean_index (elevation_mask el) d))
    as (_ & S2 & _).
  destruct (S2 v s Hs) as (Hne & _).
  apply samples_near_In in Hs. destruct Hs as [_ Es].
  rewrite angle_selection_two_steps in Es. split; [exact Es|].
  rewrite (single_angle_statistics_run w df d v el H), <- Es.
  destruct s; [congruence|reflexivity].
Qed.

Lemma compare_azimuths_box_statistics_witness :
  let file := [mkRecord 0 10 5 100 1 (-25); mkRecord 1 20 5 200 3 (-18);
               mkRecord 2 20 7 200 9 (-18)] in
  let w := snd (load_lidar_data file start) in
  let df := 0%nat in
  let d := loaded file in
  let el := 5 in
  let v := 20 in
  let s := [3] in
  s = column RWS (boolean_index (angle_mask v el) d) /\
  single_angle_statistics df v el w = (Ok (Some (angle_stats_of s)), w).
Proof.
  intros file w df d el v s.
  apply (compare_azimuths_box_statistics w df d el v s).
  - vm_compute. reflexivity.
  - vm_compute. right. now left.
Defined.
